(** * Routing-table change tracker: a shallow embedding of [route_tracker.py]

    The development follows the layout of the Python module:
    - [PyStr]: the pieces of Python's [str] and [re] that the parser uses;
    - [PyDict]: insertion-ordered dictionaries;
    - [RouteTracker]: [parse_routes], [compare_routes], [log_changes],
      [save_to_csv], [get_current_routes] and one turn of [monitor];
    - the properties of the parser, the differ, the recorder and the loop.

    Text is modelled as a sequence of code points below 256; the whitespace
    class is the one Python uses on that range for [str.split], [str.strip]
    and [\s]. *)

From Stdlib Require Import Bool Arith List Lia.
From Stdlib Require Import Strings.Ascii Strings.String.
Import ListNotations.

Local Open Scope string_scope.
Local Open Scope list_scope.

(* ===================================================================== *)
(** ** Python strings and the regular expressions of the parser          *)
(* ===================================================================== *)

Module PyStr.

(** [c.isspace()] on code points below 256: TAB..CR, FS..US, SPACE, NEL
    and NBSP.  It is also the class [\s] of [re] on text. *)
Definition isspace (c : ascii) : bool :=
  let n := nat_of_ascii c in
  ((9 <=? n)%nat && (n <=? 13)%nat) || ((28 <=? n)%nat && (n <=? 32)%nat)
  || (n =? 133)%nat || (n =? 160)%nat.

(** [s.startswith(prefix)] *)
Definition startswith (s pre : string) : bool := String.prefix pre s.

(** [line.split()]: the maximal runs of non-whitespace characters, in
    order.  [cur] is the token being read, kept reversed. *)
Fixpoint split_aux (s : string) (cur : list ascii) : list string :=
  let flush := match cur with
               | [] => []
               | _ => [string_of_list_ascii (rev cur)]
               end in
  match s with
  | EmptyString => flush
  | String c s' =>
      if isspace c then flush ++ split_aux s' []
      else split_aux s' (c :: cur)
  end.

Definition split (s : string) : list string := split_aux s [].

(** [s.split(sep)] for a one-character separator: empty fields kept. *)
Fixpoint split_on_aux (sep : ascii) (s : string) (cur : list ascii) : list string :=
  match s with
  | EmptyString => [string_of_list_ascii (rev cur)]
  | String c s' =>
      if Ascii.eqb c sep
      then string_of_list_ascii (rev cur) :: split_on_aux sep s' []
      else split_on_aux sep s' (c :: cur)
  end.

Definition split_on (sep : ascii) (s : string) : list string :=
  split_on_aux sep s [].

Fixpoint lstrip (s : string) : string :=
  match s with
  | EmptyString => EmptyString
  | String c s' => if isspace c then lstrip s' else s
  end.

Definition rev_string (s : string) : string :=
  string_of_list_ascii (rev (list_ascii_of_string s)).

Definition rstrip (s : string) : string := rev_string (lstrip (rev_string s)).

(** [s.strip()] *)
Definition strip (s : string) : string := rstrip (lstrip s).

Definition LF : ascii := ascii_of_nat 10.
Definition CR : ascii := ascii_of_nat 13.

(** Line boundaries of [str.splitlines] on code points below 256:
    LF, VT, FF, CR, FS, GS, RS and NEL; CR LF counts as one. *)
Definition is_linebreak (c : ascii) : bool :=
  let n := nat_of_ascii c in
  ((10 <=? n)%nat && (n <=? 13)%nat) || ((28 <=? n)%nat && (n <=? 30)%nat)
  || (n =? 133)%nat.

(** [s.splitlines()]: line ends dropped, no empty last line after a final
    line end. *)
Fixpoint splitlines_aux (s : string) (cur : list ascii) : list string :=
  match s with
  | EmptyString =>
      match cur with
      | [] => []
      | _ => [string_of_list_ascii (rev cur)]
      end
  | String c s' =>
      if is_linebreak c then
        string_of_list_ascii (rev cur) ::
        match s' with
        | String c' s'' =>
            if Ascii.eqb c CR && Ascii.eqb c' LF then splitlines_aux s'' []
            else splitlines_aux s' []
        | EmptyString => []
        end
      else splitlines_aux s' (c :: cur)
  end.

Definition splitlines (s : string) : list string := splitlines_aux s [].

(** [sep.join(xs)] *)
Fixpoint join (sep : string) (xs : list string) : string :=
  match xs with
  | [] => EmptyString
  | [x] => x
  | x :: xs' => x ++ sep ++ join sep xs'
  end.

(** *** The fragment of [re] used by [parse_routes]

    A pattern is a sequence of atoms: a literal character, [\s+] or
    [\S+], the last two possibly inside a capturing group. *)

Inductive charclass := Space (* \s *) | NonSpace (* \S *).

Definition in_class (k : charclass) (c : ascii) : bool :=
  match k with
  | Space => isspace c
  | NonSpace => negb (isspace c)
  end.

Inductive atom :=
| Lit (c : ascii)                 (* the character itself *)
| Plus (k : charclass)            (* \s+ or \S+ *)
| GroupPlus (k : charclass).      (* (\s+) or (\S+) *)

Definition pattern := list atom.

Fixpoint lits (s : string) : pattern :=
  match s with
  | EmptyString => []
  | String c s' => Lit c :: lits s'
  end.

(** Length of the longest prefix of [s] made of characters of class [k]. *)
Fixpoint run_length (k : charclass) (s : string) : nat :=
  match s with
  | EmptyString => 0
  | String c s' => if in_class k c then S (run_length k s') else 0
  end.

Fixpoint take (n : nat) (s : string) : string :=
  match n, s with
  | S n', String c s' => String c (take n' s')
  | _, _ => EmptyString
  end.

Fixpoint drop (n : nat) (s : string) : string :=
  match n, s with
  | S n', String _ s' => drop n' s'
  | _, _ => s
  end.

(** A greedy [+]: try the longest repetition first, then give one
    character back at a time, never going below one. *)
Fixpoint backtrack {A} (try : nat -> option A) (n : nat) : option A :=
  match n with
  | O => None
  | S n' => match try n with
            | Some r => Some r
            | None => backtrack try n'
            end
  end.

(** Match [pat] at the start of [s]; [groups] are the captures so far. *)
Fixpoint match_here (pat : pattern) (s : string) (groups : list string)
  : option (list string) :=
  match pat with
  | [] => Some groups
  | Lit c :: pat' =>
      match s with
      | String c' s' => if Ascii.eqb c c' then match_here pat' s' groups else None
      | EmptyString => None
      end
  | Plus k :: pat' =>
      backtrack (fun n => match_here pat' (drop n s) groups) (run_length k s)
  | GroupPlus k :: pat' =>
      backtrack (fun n => match_here pat' (drop n s) (groups ++ [take n s]))
                (run_length k s)
  end.

(** [re.search(pat, s)]: the match at the leftmost position that has one. *)
Fixpoint search (pat : pattern) (s : string) : option (list string) :=
  match match_here pat s [] with
  | Some g => Some g
  | None => match s with
            | EmptyString => None
            | String _ s' => search pat s'
            end
  end.

(** [match.group(i)] for [i >= 1]. *)
Definition group (i : nat) (m : list string) : string := nth (i - 1) m "".

(** [r'default via (\S+)'] *)
Definition re_default_via : pattern := lits "default via " ++ [GroupPlus NonSpace].

(** [r'(\S+)\s+via\s+(\S+)'] *)
Definition re_via : pattern :=
  [GroupPlus NonSpace; Plus Space] ++ lits "via" ++ [Plus Space; GroupPlus NonSpace].

End PyStr.

(* ===================================================================== *)
(** ** Python dictionaries                                                *)
(* ===================================================================== *)

(** A [dict] with string keys keeps its items in insertion order; assigning
    to a key that is present replaces the value where it stands. *)
Module PyDict.
Section Dict.
Context {V : Type}.

Definition dict := list (string * V).

(** [d.get(k)] / [d[k]] *)
Fixpoint get (d : dict) (k : string) : option V :=
  match d with
  | [] => None
  | (k', v) :: d' => if String.eqb k k' then Some v else get d' k
  end.

(** [k in d] *)
Definition mem (k : string) (d : dict) : bool :=
  match get d k with Some _ => true | None => false end.

(** [d[k] = v] *)
Fixpoint set (k : string) (v : V) (d : dict) : dict :=
  match d with
  | [] => [(k, v)]
  | (k', v') :: d' =>
      if String.eqb k k' then (k', v) :: d' else (k', v') :: set k v d'
  end.

(** [d.keys()], [d.values()], [d.items()] *)
Definition keys (d : dict) : list string := map fst d.
Definition values (d : dict) : list V := map snd d.
Definition items (d : dict) : list (string * V) := d.

(** Truth value of a dictionary: non-empty. *)
Definition truthy (d : dict) : bool :=
  match d with [] => false | _ => true end.
End Dict.
Arguments dict : clear implicits.
End PyDict.

Import PyStr PyDict.

(* ===================================================================== *)
(** ** The world a tracker runs in                                        *)
(* ===================================================================== *)

(** What [subprocess.run(['ip', 'route'], capture_output=True, text=True)]
    finds: the program cannot be started, or it runs to completion with an
    exit status and its captured standard output. *)
Inductive process_outcome :=
| CannotStart
| Exited (returncode : nat) (stdout : string).

(** The exceptions that reach this module. *)
Inductive exn :=
| KeyError (key : string)
| FileNotFoundError
| CalledProcessError (returncode : nat).

Inductive result (A : Type) :=
| Ok (a : A)
| Raise (e : exn).
Arguments Ok {A} a.
Arguments Raise {A} e.

(** A route as [parse_routes] stores it: the tuple
    [(admin_distance, metric, next_hop)]; the parser always leaves the first
    two at [None], and [next_hop] is the address after [via] or the word
    [direct]. *)
Definition route_info : Type := option nat * option nat * string.

Definition routes_t := dict route_info.

(** A value handed to [csv.writer.writerow]. *)
Inductive field :=
| FNone
| FNum (n : nat)
| FStr (s : string).

Definition csv_row := list field.

Definition field_of_num (o : option nat) : field :=
  match o with
  | None => FNone
  | Some n => FNum n
  end.

(** A record of the [logging] module: level and message.  The message of
    [log_changes] is kept as the destinations and the route tuples that its
    f-string joins. *)
Inductive log_message :=
| AddedRoutes (destinations : list string) (metrics : list route_info)
| RemovedRoutes (destinations : list string) (metrics : list route_info)
| ErrorRunningIpRoute (e : exn).

Inductive log_record :=
| INFO (m : log_message)
| ERROR (m : log_message).

(** What goes to the console and to the topology renderer. *)
Inductive console_event :=
| OutText (s : string)
| OutRouteSummary (total direct_routes gateway_routes : nat)
                  (gateway : option string)
| TopologyGraphShown (routes : routes_t) (gateway : option string).

(** The state outside the tracker object.
    - [source n] is what the [n]-th run of [ip route] finds and [polls]
      counts the runs so far;
    - [clock n] is the formatted result of the [n]-th [datetime.now()] and
      [clock_reads] counts the readings so far;
    - [log] is the log file, oldest record first;
    - [csv] is the CSV file of the tracker: [None] when the path does not
      name a file, else the rows written to it, oldest first (every row
      written takes at least its line end, so the file has size 0 exactly
      when it has no row);
    - [console] is the console output and the graphs shown. *)
Record world := mkWorld {
  source : nat -> process_outcome;
  polls : nat;
  clock : nat -> string;
  clock_reads : nat;
  log : list log_record;
  csv : option (list csv_row);
  console : list console_event
}.

(** Computations that read and change the world and may raise. *)
Definition M (A : Type) : Type := world -> result A * world.

Definition ret {A} (a : A) : M A := fun w => (Ok a, w).

Definition raise {A} (e : exn) : M A := fun w => (Raise e, w).

Definition bind {A B} (c : M A) (k : A -> M B) : M B :=
  fun w => match c w with
           | (Ok a, w') => k a w'
           | (Raise e, w') => (Raise e, w')
           end.

Declare Scope py_scope.
Delimit Scope py_scope with py.
Notation "x <- c ;; k" := (bind c (fun x => k))
  (at level 61, c at next level, right associativity) : py_scope.
Notation "c ;; k" := (bind c (fun _ => k))
  (at level 61, right associativity) : py_scope.
Local Open Scope py_scope.

(** [if cond: body] for a body that returns nothing. *)
Definition when (cond : bool) (body : M unit) : M unit :=
  if cond then body else ret tt.

(** [for x in xs: body x] *)
Fixpoint for_each {A} (xs : list A) (body : A -> M unit) : M unit :=
  match xs with
  | [] => ret tt
  | x :: xs' => body x ;; for_each xs' body
  end.

(** [datetime.now().strftime(...)] *)
Definition datetime_now : M string :=
  fun w => (Ok (clock w (clock_reads w)),
            mkWorld (source w) (polls w) (clock w) (S (clock_reads w))
                    (log w) (csv w) (console w)).

(** [logging.info(msg)] and [logging.error(msg)] *)
Definition logging_emit (r : log_record) : M unit :=
  fun w => (Ok tt,
            mkWorld (source w) (polls w) (clock w) (clock_reads w)
                    (log w ++ [r]) (csv w) (console w)).

Definition logging_info (m : log_message) : M unit := logging_emit (INFO m).
Definition logging_error (m : log_message) : M unit := logging_emit (ERROR m).

(** [print(...)] and [plt.show()] *)
Definition emit (e : console_event) : M unit :=
  fun w => (Ok tt,
            mkWorld (source w) (polls w) (clock w) (clock_reads w)
                    (log w) (csv w) (console w ++ [e])).

(** [os.path.isfile(p) and os.path.getsize(p) > 0] for the CSV path. *)
Definition csv_isfile_nonempty : M bool :=
  fun w => (Ok match csv w with
               | Some (_ :: _) => true
               | _ => false
               end, w).

(** [writer.writerow(row)] on the CSV path opened with mode ['a']: the file
    is created when missing. *)
Definition writerow (row : csv_row) : M unit :=
  fun w => (Ok tt,
            mkWorld (source w) (polls w) (clock w) (clock_reads w) (log w)
                    (Some (match csv w with Some rows => rows | None => [] end
                           ++ [row]))
                    (console w)).

(** [open(p, mode='a')]: creates the file when missing, leaves it alone
    otherwise. *)
Definition open_append : M unit :=
  fun w => (Ok tt,
            mkWorld (source w) (polls w) (clock w) (clock_reads w) (log w)
                    (Some (match csv w with Some rows => rows | None => [] end))
                    (console w)).

(** [subprocess.run(args, capture_output=True, text=True, check=check)]:
    a program that cannot be started raises the [OSError] of the failed
    [exec]; [CalledProcessError] is raised only when [check] is set and the
    exit status is not zero. *)
Definition subprocess_run (check : bool) : M (nat * string) :=
  fun w =>
    let w' := mkWorld (source w) (S (polls w)) (clock w) (clock_reads w)
                      (log w) (csv w) (console w) in
    match source w (polls w) with
    | CannotStart => (Raise FileNotFoundError, w')
    | Exited rc out =>
        if check && negb (rc =? 0)%nat then (Raise (CalledProcessError rc), w')
        else (Ok (rc, out), w')
    end.

(** [try: body except CalledProcessError as e: handler e] *)
Definition try_except_CalledProcessError {A} (body : M A) (handler : exn -> M A)
  : M A :=
  fun w => match body w with
           | (Raise (CalledProcessError rc), w') => handler (CalledProcessError rc) w'
           | r => r
           end.

(* ===================================================================== *)
(** ** class RouteTracker                                                 *)
(* ===================================================================== *)

Module RouteTracker.

(** The attributes set by [__init__]. *)
Record self_t := mkSelf {
  output_dir : string;
  log_to_console : bool;
  log_file : string;
  csv_file : string
}.

(** [get_current_routes]: [subprocess.run] is called without [check]. *)
Definition get_current_routes (self : self_t) : M (list string) :=
  try_except_CalledProcessError
    (r <- subprocess_run false ;;
     ret (splitlines (snd r)))
    (fun e =>
       logging_error (ErrorRunningIpRoute e) ;;
       ret []).

(** The body of the [for line in output] loop of [parse_routes], from the
    values of [routes] and [gateway] before the line to their values
    after it. *)
Definition parse_line (st : routes_t * option string) (line : string)
  : routes_t * option string :=
  let '(routes, gateway) := st in
  (* the part of the body after the [default] test *)
  let rest :=
    match search re_via line with
    | Some m =>
        let destination := group 1 m in
        let next_hop := group 2 m in
        (set destination (None, None, next_hop) routes, gateway)
    | None =>
        let parts := split line in
        match parts with
        | destination :: _ =>
            if negb (String.eqb destination "default")
            then (set destination (None, None, "direct") routes, gateway)
            else (routes, gateway)
        | [] => (routes, gateway)
        end
    end in
  if startswith line "default" then
    match search re_default_via line with
    | Some m => (routes, Some (group 1 m))       (* continue *)
    | None => rest
    end
  else rest.

(** [parse_routes] *)
Definition parse_routes (self : self_t) (output : list string)
  : routes_t * option string :=
  fold_left parse_line output ([], None).

(** [{route: src[route] for route in src if route not in other}]:
    [acc] is the dictionary built so far, [ks] the keys still to visit. *)
Fixpoint only_in (src other : routes_t) (ks : list string) (acc : routes_t)
  : result routes_t :=
  match ks with
  | [] => Ok acc
  | route :: ks' =>
      if negb (mem route other) then
        match get src route with
        | Some v => only_in src other ks' (set route v acc)
        | None => Raise (KeyError route)
        end
      else only_in src other ks' acc
  end.

(** [compare_routes] *)
Definition compare_routes (self : self_t) (before after : routes_t)
  : result (routes_t * routes_t) :=
  match only_in after before (keys after) [] with
  | Raise e => Raise e
  | Ok added =>
      match only_in before after (keys before) [] with
      | Raise e => Raise e
      | Ok removed => Ok (added, removed)
      end
  end.

(** [log_changes] *)
Definition log_changes (self : self_t) (added removed : routes_t) : M unit :=
  when (truthy added)
       (logging_info (AddedRoutes (keys added) (values added))) ;;
  when (truthy removed)
       (logging_info (RemovedRoutes (keys removed) (values removed))).

Definition csv_header : csv_row :=
  [FStr "Change Type"; FStr "Route"; FStr "Admin Distance"; FStr "Metric";
   FStr "Next Hop"; FStr "Timestamp"].

Definition change_row (change_type : string) (timestamp : string)
           (item : string * route_info) : csv_row :=
  let '(route, (admin_distance, metric, next_hop)) := item in
  [FStr change_type; FStr route; field_of_num admin_distance;
   field_of_num metric; FStr next_hop; FStr timestamp].

(** [save_to_csv] *)
Definition save_to_csv (self : self_t) (added removed : routes_t) : M unit :=
  file_exists <- csv_isfile_nonempty ;;
  open_append ;;
  when (negb file_exists) (writerow csv_header) ;;
  timestamp <- datetime_now ;;
  for_each (items added)
           (fun item => writerow (change_row "Added" timestamp item)) ;;
  for_each (items removed)
           (fun item => writerow (change_row "Removed" timestamp item)).

(** [create_topology_graph]: the graph is built from [routes] and
    [gateway] and shown; nothing of it comes back. *)
Definition create_topology_graph (self : self_t) (routes : routes_t)
           (gateway : option string) : M unit :=
  emit (TopologyGraphShown routes gateway).

Definition count_if {A} (p : A -> bool) (l : list A) : nat :=
  List.length (filter p l).

(** [print_route_summary] *)
Definition print_route_summary (self : self_t) (routes : routes_t)
           (gateway : option string) : M unit :=
  if negb (log_to_console self) then ret tt
  else
    let direct_routes :=
      count_if (fun it => String.eqb (snd (snd it)) "direct") (items routes) in
    let gateway_routes :=
      count_if (fun it => negb (String.eqb (snd (snd it)) "direct")) (items routes) in
    emit (OutRouteSummary (List.length routes) direct_routes gateway_routes gateway).

(** Lift a pure computation that may raise. *)
Definition lift {A} (r : result A) : M A := fun w => (r, w).

(** The [if added or removed] block that follows
    [added, removed = self.compare_routes(...)] in [monitor] and in
    [run_test]; [graph_notice] is the line printed before the graph, the
    one place where the two copies differ.  The value is that of
    [(previous_routes, previous_gateway)] after the block, which only
    [monitor] goes on to use. *)
Definition process_changes (self : self_t) (graph_notice : string)
           (previous : routes_t * option string)
           (current : routes_t * option string)
           (added removed : routes_t) : M (routes_t * option string) :=
  let '(current_routes, current_gateway) := current in
  if truthy added || truthy removed then
    when (log_to_console self)
         (emit (OutText (String LF "Routing changes detected!")) ;;
          when (truthy added)
               (emit (OutText ("Added routes: " ++ join ", " (keys added)))) ;;
          when (truthy removed)
               (emit (OutText ("Removed routes: " ++ join ", " (keys removed))))) ;;
    log_changes self added removed ;;
    save_to_csv self added removed ;;
    print_route_summary self current_routes current_gateway ;;
    when (log_to_console self) (emit (OutText graph_notice)) ;;
    create_topology_graph self current_routes current_gateway ;;
    ret (current_routes, current_gateway)
  else ret previous.

(** One turn of the [while True] loop of [monitor], after the sleep. *)
Definition monitor_cycle (self : self_t) (previous : routes_t * option string)
  : M (routes_t * option string) :=
  current_output <- get_current_routes self ;;
  let current := parse_routes self current_output in
  d <- lift (compare_routes self (fst previous) (fst current)) ;;
  process_changes self "Updating topology graph..." previous current (fst d) (snd d).

(** [n] turns of the loop; the interrupt that ends [monitor] arrives in
    the sleep after them.  An exception other than that interrupt leaves
    the loop at once.  A turn starts where its [time.sleep(interval)] has
    returned, and the world has no sleep that can fail, no output that
    cannot be decoded and no file that cannot be written: what is proved
    of the loop is what its turns do from the output of [ip route] on, not
    that [monitor] raises nothing else. *)
Fixpoint monitor_loop (self : self_t) (n : nat)
         (previous : routes_t * option string) : M (routes_t * option string) :=
  match n with
  | O => ret previous
  | S n' =>
      previous' <- monitor_cycle self previous ;;
      monitor_loop self n' previous'
  end.

(** [monitor], stopped after [n] turns; the two lines printed at the
    start are left out, as they need the interval. *)
Definition monitor (self : self_t) (n : nat) : M (routes_t * option string) :=
  initial_output <- get_current_routes self ;;
  let previous := parse_routes self initial_output in
  print_route_summary self (fst previous) (snd previous) ;;
  monitor_loop self n previous.

End RouteTracker.

Import RouteTracker.

(** The mock tables of [run_test]. *)
Definition before_routes_text : string :=
  String LF "default via 192.168.1.1 dev eth0" ++
  String LF "192.168.1.0/24 dev eth0 proto kernel scope link src 192.168.1.100" ++
  String LF "172.16.0.0/16 via 192.168.1.1 dev eth0" ++
  String LF "10.0.0.0/8 via 192.168.1.1 dev eth0" ++
  String LF "".

Definition after_routes_text : string :=
  String LF "default via 192.168.1.1 dev eth0" ++
  String LF "192.168.1.0/24 dev eth0 proto kernel scope link src 192.168.1.100" ++
  String LF "172.16.0.0/16 via 192.168.1.1 dev eth0" ++
  String LF "10.0.0.0/8 via 192.168.1.2 dev eth0" ++
  String LF "192.168.2.0/24 via 192.168.1.1 dev eth0" ++
  String LF "".

Definition before_routes : list string := split_on LF (strip before_routes_text).
Definition after_routes : list string := split_on LF (strip after_routes_text).

(** [run_test], from the parsing of the two tables to the end of the
    [if added or removed] block. *)
Definition run_test (self : self_t) : M bool :=
  when (log_to_console self)
       (emit (OutText "Running in test mode with mock route tables...")) ;;
  let previous := parse_routes self before_routes in
  print_route_summary self (fst previous) (snd previous) ;;
  let current := parse_routes self after_routes in
  d <- lift (compare_routes self (fst previous) (fst current)) ;;
  process_changes self "Creating topology graph..." previous current (fst d) (snd d) ;;
  when (log_to_console self) (emit (OutText (String LF "Test completed."))) ;;
  ret true.

(* ===================================================================== *)
(** ** Facts about dictionaries                                           *)
(* ===================================================================== *)

Section DictFacts.
Context {V : Type}.
Implicit Types (d : dict V) (k : string) (v : V).

Lemma get_set_same d k v : get (set k v d) k = Some v.
Proof.
  induction d as [| [k' v'] d IH]; simpl.
  - now rewrite String.eqb_refl.
  - destruct (String.eqb k k') eqn:E; simpl; rewrite E; auto.
Qed.

Lemma get_set_other d k k' v : k' <> k -> get (set k v d) k' = get d k'.
Proof.
  intros Hne. induction d as [| [k0 v0] d IH]; simpl.
  - apply String.eqb_neq in Hne. now rewrite Hne.
  - destruct (String.eqb k k0) eqn:E; simpl.
    + apply String.eqb_eq in E. subst k0.
      apply String.eqb_neq in Hne. now rewrite Hne.
    + now rewrite IH.
Qed.

Lemma get_set d k k' v :
  get (set k v d) k' = if String.eqb k' k then Some v else get d k'.
Proof.
  destruct (String.eqb_spec k' k) as [-> | Hne].
  - apply get_set_same.
  - now apply get_set_other.
Qed.

Lemma mem_keys d k : mem k d = existsb (String.eqb k) (keys d).
Proof.
  unfold mem. induction d as [| [k' v'] d IH]; simpl; auto.
  destruct (String.eqb k k'); auto.
Qed.

Lemma mem_true_iff d k : mem k d = true <-> In k (keys d).
Proof.
  rewrite mem_keys, existsb_exists. split.
  - intros [x [Hin Heq]]. apply String.eqb_eq in Heq. now subst.
  - intros Hin. exists k. split; auto. apply String.eqb_refl.
Qed.

Lemma mem_false_get d k : mem k d = false <-> get d k = None.
Proof.
  unfold mem. destruct (get d k); split; congruence.
Qed.

Lemma mem_true_get d k : mem k d = true <-> exists v, get d k = Some v.
Proof.
  unfold mem. destruct (get d k) as [v |]; split; eauto; try congruence.
  intros [v Hv]. congruence.
Qed.

Lemma get_all_None d : (forall k, get d k = None) -> d = [].
Proof.
  destruct d as [| [k v] d]; auto.
  intros H. specialize (H k). simpl in H.
  rewrite String.eqb_refl in H. discriminate.
Qed.
End DictFacts.

(* ===================================================================== *)
(** ** The differ                                                         *)
(* ===================================================================== *)

Section Differ.
Variable self : self_t.
Implicit Types (A B src other acc : routes_t) (d : string).

(** The comprehension never raises on keys taken from its own source,
    and the dictionary it builds is the source cut down to the keys that
    [other] lacks. *)
Lemma only_in_get src other ks acc :
  (forall k, In k ks -> In k (keys src)) ->
  exists r, only_in src other ks acc = Ok r /\
    forall d, get r d =
              if existsb (String.eqb d) ks && negb (mem d other)
              then get src d else get acc d.
Proof.
  revert acc. induction ks as [| route ks IH]; intros acc Hks; simpl.
  - exists acc. split; auto.
  - assert (Hks' : forall k, In k ks -> In k (keys src))
      by (intros k Hk; apply Hks; now right).
    destruct (mem route other) eqn:Hm; simpl.
    + destruct (IH acc Hks') as [r [Hr Hget]]. exists r. split; auto.
      intros d. rewrite Hget.
      destruct (String.eqb_spec d route) as [-> | Hne]; simpl; auto.
      rewrite Hm. simpl. now rewrite andb_false_r.
    + assert (Hin : In route (keys src)) by (apply Hks; now left).
      apply mem_true_iff, mem_true_get in Hin. destruct Hin as [v Hv].
      rewrite Hv.
      destruct (IH (set route v acc) Hks') as [r [Hr Hget]].
      exists r. split; auto.
      intros d. rewrite Hget, get_set.
      destruct (String.eqb_spec d route) as [-> | Hne]; simpl; auto.
      rewrite Hm. simpl.
      destruct (existsb (String.eqb route) ks); simpl; auto.
Qed.

Lemma only_in_keys src other :
  exists r, only_in src other (keys src) [] = Ok r /\
    forall d, get r d = if mem d other then None else get src d.
Proof.
  destruct (only_in_get src other (keys src) []) as [r [Hr Hget]]; auto.
  exists r. split; auto.
  intros d. rewrite Hget, <- mem_keys. simpl.
  destruct (mem d src) eqn:Hs; destruct (mem d other); simpl; auto.
  symmetry. now apply mem_false_get.
Qed.

(** [compare_routes] returns, and its two results are the cut-down
    dictionaries. *)
Lemma compare_routes_get A B :
  exists added removed,
    compare_routes self A B = Ok (added, removed) /\
    (forall d, get added d = if mem d A then None else get B d) /\
    (forall d, get removed d = if mem d B then None else get A d).
Proof.
  unfold compare_routes.
  destruct (only_in_keys B A) as [added [Ha Hga]].
  destruct (only_in_keys A B) as [removed [Hr Hgr]].
  rewrite Ha, Hr. eauto.
Qed.

(** C1 (key-only diff law).  For all route tables [A] (before) and [B]
    (after), [compare_routes] returns a pair [(added, removed)] such that
    for every destination [d]: [d] is a key of [added] exactly when it is
    a key of [B] and not of [A], and then [added[d]] is [B[d]]; [d] is a
    key of [removed] exactly when it is a key of [A] and not of [B], and
    then [removed[d]] is [A[d]]. *)
Theorem compare_routes_key_law A B :
  exists added removed,
    compare_routes self A B = Ok (added, removed) /\
    forall d,
      (mem d added = true <-> mem d B = true /\ mem d A = false) /\
      (mem d added = true -> get added d = get B d) /\
      (mem d removed = true <-> mem d A = true /\ mem d B = false) /\
      (mem d removed = true -> get removed d = get A d).
Proof.
  destruct (compare_routes_get A B) as [added [removed [Hc [Ha Hr]]]].
  exists added, removed. split; auto.
  intros d.
  assert (Hma : mem d added = negb (mem d A) && mem d B).
  { unfold mem at 1. rewrite Ha. unfold mem.
    destruct (get A d), (get B d); reflexivity. }
  assert (Hmr : mem d removed = negb (mem d B) && mem d A).
  { unfold mem at 1. rewrite Hr. unfold mem.
    destruct (get B d), (get A d); reflexivity. }
  rewrite Hma, Hmr, Ha, Hr.
  destruct (mem d A), (mem d B); simpl; intuition congruence.
Qed.

(** C2 (blind spot).  A destination [d] that is a key of both [A] and
    [B], whatever the two routes stored under it, is a key of neither
    [added] nor [removed]. *)
Theorem compare_routes_blind_spot A B d :
  mem d A = true -> mem d B = true ->
  exists added removed,
    compare_routes self A B = Ok (added, removed) /\
    mem d added = false /\ mem d removed = false.
Proof.
  intros HA HB.
  destruct (compare_routes_get A B) as [added [removed [Hc [Ha Hr]]]].
  exists added, removed. split; auto.
  split; apply mem_false_get.
  - now rewrite Ha, HA.
  - now rewrite Hr, HB.
Qed.

(** C10.  Comparing a route table with itself gives two empty
    dictionaries. *)
Theorem compare_routes_self A :
  compare_routes self A A = Ok ([], []).
Proof.
  destruct (compare_routes_get A A) as [added [removed [Hc [Ha Hr]]]].
  rewrite Hc.
  assert (added = []) as ->.
  { apply get_all_None. intros k. rewrite Ha.
    destruct (mem k A) eqn:E; auto. now apply mem_false_get. }
  assert (removed = []) as ->.
  { apply get_all_None. intros k. rewrite Hr.
    destruct (mem k A) eqn:E; auto. now apply mem_false_get. }
  reflexivity.
Qed.
End Differ.

(* ===================================================================== *)
(** ** The parser                                                         *)
(* ===================================================================== *)

Section Parser.
Variable self : self_t.

(** A [via] line of the usual shape: the destination comes first and
    [via] follows it directly. *)
Example parse_routes_via_second_token :
  parse_routes self ["10.0.0.0/8 via 192.168.1.1 dev eth0"]
  = ([("10.0.0.0/8", (None, None, "192.168.1.1"))], None).
Proof. reflexivity. Qed.

(** C3, at the line of the claim.  [re.search] with
    [(\S+)\s+via\s+(\S+)] captures the token that stands just before
    [via]: on ["10.0.0.0/8 dev eth0 via 192.168.1.1"] the route is stored
    under ["eth0"], and ["10.0.0.0/8"], the first token, is no key of the
    result. *)
Theorem parse_routes_via_after_device :
  parse_routes self ["10.0.0.0/8 dev eth0 via 192.168.1.1"]
  = ([("eth0", (None, None, "192.168.1.1"))], None)
  /\ mem "10.0.0.0/8"
         (fst (parse_routes self ["10.0.0.0/8 dev eth0 via 192.168.1.1"]))
     = false.
Proof. split; reflexivity. Qed.

(** A [default via <addr>] line sets the gateway and stores no route. *)
Example parse_routes_default_via :
  parse_routes self ["default via 192.168.1.1 dev eth0"]
  = ([], Some "192.168.1.1").
Proof. reflexivity. Qed.

(** A [default] line without [via] is dropped by the test on
    [parts[0]]. *)
Example parse_routes_default_without_via :
  parse_routes self ["default dev eth0"] = ([], None).
Proof. reflexivity. Qed.

(** C4, at the line of the claim.  On
    ["default dev eth0 via 192.168.1.1"] the search for [default via]
    fails, there is no [continue], and the [via] search of the next
    statement stores a route under ["eth0"]; no gateway is set. *)
Theorem parse_routes_default_falls_through :
  parse_routes self ["default dev eth0 via 192.168.1.1"]
  = ([("eth0", (None, None, "192.168.1.1"))], None).
Proof. reflexivity. Qed.

(** The same fall-through with two spaces after [default]: the route is
    stored under ["default"] itself. *)
Example parse_routes_default_two_spaces :
  parse_routes self ["default  via 192.168.1.1"]
  = ([("default", (None, None, "192.168.1.1"))], None).
Proof. reflexivity. Qed.

(** C5.  The two mock tables of [run_test], parsed and compared, give
    [added = {"192.168.2.0/24": (None, None, "192.168.1.1")}] and an
    empty [removed]. *)
Theorem run_test_diff :
  compare_routes self (fst (parse_routes self before_routes))
                      (fst (parse_routes self after_routes))
  = Ok ([("192.168.2.0/24", (None, None, "192.168.1.1"))], []).
Proof. vm_compute. reflexivity. Qed.
End Parser.

(* ===================================================================== *)
(** ** The recorder                                                       *)
(* ===================================================================== *)

(** The rows of the CSV file, none when the file is missing. *)
Definition csv_rows (w : world) : list csv_row :=
  match csv w with
  | Some rows => rows
  | None => []
  end.

(** The header line that a call of [save_to_csv] adds in world [w]. *)
Definition header_due (w : world) : list csv_row :=
  match csv w with
  | Some (_ :: _) => []
  | _ => [csv_header]
  end.

(** The world after [save_to_csv self added removed]. *)
Definition after_save (added removed : routes_t) (w : world) : world :=
  let timestamp := clock w (clock_reads w) in
  mkWorld (source w) (polls w) (clock w) (S (clock_reads w)) (log w)
          (Some (csv_rows w ++ header_due w
                 ++ map (change_row "Added" timestamp) (items added)
                 ++ map (change_row "Removed" timestamp) (items removed)))
          (console w).

(** [save_to_csv] for each batch of a list, in order. *)
Definition save_batches (self : self_t) (batches : list (routes_t * routes_t))
  : M unit :=
  for_each batches (fun b => save_to_csv self (fst b) (snd b)).

(** The data rows that the batches put in the file, in order: the [i]-th
    batch is written with the [i]-th reading of the clock from [n] on. *)
Fixpoint batch_rows (clk : nat -> string) (n : nat)
         (batches : list (routes_t * routes_t)) : list csv_row :=
  match batches with
  | [] => []
  | b :: batches' =>
      map (change_row "Added" (clk n)) (items (fst b))
      ++ map (change_row "Removed" (clk n)) (items (snd b))
      ++ batch_rows clk (S n) batches'
  end.

Section Recorder.
Variable self : self_t.

#[local] Arguments writerow : simpl never.
#[local] Arguments for_each : simpl never.

Lemma for_each_cons {A} (x : A) (xs : list A) (body : A -> M unit) :
  for_each (x :: xs) body = bind (body x) (fun _ => for_each xs body).
Proof. reflexivity. Qed.

Lemma writerow_run row src p clk cr lg rows con :
  writerow row (mkWorld src p clk cr lg (Some rows) con)
  = (Ok tt, mkWorld src p clk cr lg (Some (rows ++ [row])) con).
Proof. reflexivity. Qed.

Lemma for_each_writerow {A} (f : A -> csv_row) (l : list A)
      src p clk cr lg rows con :
  for_each l (fun x => writerow (f x)) (mkWorld src p clk cr lg (Some rows) con)
  = (Ok tt, mkWorld src p clk cr lg (Some (rows ++ map f l)) con).
Proof.
  revert rows. induction l as [| x l IH]; intros rows.
  - unfold for_each, ret. now rewrite app_nil_r.
  - rewrite for_each_cons. unfold bind. rewrite writerow_run, IH.
    simpl. now rewrite <- app_assoc.
Qed.

Lemma save_to_csv_run added removed w :
  save_to_csv self added removed w = (Ok tt, after_save added removed w).
Proof.
  destruct w as [src p clk cr lg f con].
  unfold save_to_csv, after_save, csv_rows, header_due, bind,
    csv_isfile_nonempty, open_append, when, datetime_now.
  destruct f as [[| r rows] |]; simpl;
    rewrite ?writerow_run, !for_each_writerow;
    simpl; rewrite <- ?app_assoc; reflexivity.
Qed.

Lemma change_row_not_header change_type timestamp item :
  change_type <> "Change Type" ->
  change_row change_type timestamp item <> csv_header.
Proof.
  intros Hne. destruct item as [route [[admin metric] next_hop]].
  unfold change_row, csv_header. intros Heq.
  injection Heq as H _. contradiction.
Qed.

Lemma header_not_in_rows change_type timestamp (d : routes_t) :
  change_type <> "Change Type" ->
  ~ In csv_header (map (change_row change_type timestamp) (items d)).
Proof.
  intros Hne Hin. apply in_map_iff in Hin. destruct Hin as [item [Heq _]].
  now apply (change_row_not_header change_type timestamp item).
Qed.

(** C8.  [save_to_csv] returns normally; after the rows the file had and
    the header when it is due, it has written one row for each item of
    [added], in order, then one row for each item of [removed], in order;
    every row is [change type, route, admin distance, metric, next hop,
    timestamp]; the timestamp of all of them is the one reading of the
    clock that the call makes. *)
Theorem save_to_csv_rows added removed w :
  fst (save_to_csv self added removed w) = Ok tt /\
  csv (snd (save_to_csv self added removed w))
  = Some (csv_rows w ++ header_due w
          ++ map (change_row "Added" (clock w (clock_reads w))) (items added)
          ++ map (change_row "Removed" (clock w (clock_reads w))) (items removed)) /\
  clock_reads (snd (save_to_csv self added removed w)) = S (clock_reads w) /\
  (forall change_type timestamp route admin_distance metric next_hop,
      change_row change_type timestamp (route, (admin_distance, metric, next_hop))
      = [FStr change_type; FStr route; field_of_num admin_distance;
         field_of_num metric; FStr next_hop; FStr timestamp]).
Proof.
  rewrite save_to_csv_run. simpl. repeat split; reflexivity.
Qed.

(** On a file that has a row already, the batches are appended one after
    the other and no header is written. *)
Lemma save_batches_append batches w rows :
  csv w = Some rows -> rows <> [] ->
  fst (save_batches self batches w) = Ok tt /\
  csv (snd (save_batches self batches w))
  = Some (rows ++ batch_rows (clock w) (clock_reads w) batches).
Proof.
  unfold save_batches. revert w rows.
  induction batches as [| b batches IH]; intros w rows Hcsv Hne.
  - unfold for_each, ret. simpl. now rewrite app_nil_r.
  - rewrite for_each_cons. unfold bind. rewrite save_to_csv_run.
    destruct (IH (after_save (fst b) (snd b) w)
                 (rows ++ map (change_row "Added" (clock w (clock_reads w)))
                              (items (fst b))
                       ++ map (change_row "Removed" (clock w (clock_reads w)))
                              (items (snd b))))
      as [Hok Hrows].
    + unfold after_save, csv_rows, header_due. simpl. rewrite Hcsv.
      destruct rows; [congruence | reflexivity].
    + destruct rows; [congruence | discriminate].
    + split; [exact Hok |]. rewrite Hrows. simpl.
      now rewrite <- !app_assoc.
Qed.

(** From a missing or empty file, the first batch writes the header and
    the batches follow it. *)
Lemma save_batches_from_empty b batches w :
  csv w = None \/ csv w = Some [] ->
  fst (save_batches self (b :: batches) w) = Ok tt /\
  csv (snd (save_batches self (b :: batches) w))
  = Some (csv_header :: batch_rows (clock w) (clock_reads w) (b :: batches)).
Proof.
  intros Hcsv. unfold save_batches. rewrite for_each_cons. unfold bind.
  rewrite save_to_csv_run.
  destruct (save_batches_append batches (after_save (fst b) (snd b) w)
              (csv_header
               :: map (change_row "Added" (clock w (clock_reads w)))
                      (items (fst b))
               ++ map (change_row "Removed" (clock w (clock_reads w)))
                      (items (snd b))))
    as [Hok Hrows].
  - unfold after_save, csv_rows, header_due. simpl.
    destruct Hcsv as [-> | ->]; reflexivity.
  - discriminate.
  - split; [exact Hok |]. unfold save_batches in Hrows. rewrite Hrows.
    simpl. now rewrite <- !app_assoc.
Qed.

Lemma header_not_in_batch_rows clk n batches :
  ~ In csv_header (batch_rows clk n batches).
Proof.
  revert n. induction batches as [| b batches IH]; intros n; simpl; auto.
  rewrite !in_app_iff. intros [H | [H | H]].
  - revert H. apply header_not_in_rows. discriminate.
  - revert H. apply header_not_in_rows. discriminate.
  - now apply (IH (S n)).
Qed.

(** C9.  Starting from a CSV file that is missing or empty, write one
    batch or more.  The header is due at the first call; the file then
    holds the header row followed by the rows of all the batches, in
    order, and nothing else; none of these rows is the header row; and
    after any number of the batches, at least one, the header is not due
    again, so no later call writes it. *)
Theorem csv_header_once b batches w :
  csv w = None \/ csv w = Some [] ->
  fst (save_batches self (b :: batches) w) = Ok tt /\
  header_due w = [csv_header] /\
  csv (snd (save_batches self (b :: batches) w))
  = Some (csv_header :: batch_rows (clock w) (clock_reads w) (b :: batches)) /\
  ~ In csv_header (batch_rows (clock w) (clock_reads w) (b :: batches)) /\
  (forall first earlier later,
      b :: batches = (first :: earlier) ++ later ->
      header_due (snd (save_batches self (first :: earlier) w)) = []).
Proof.
  intros Hcsv.
  destruct (save_batches_from_empty b batches w Hcsv) as [Hok Hrows].
  split; [exact Hok |].
  split; [unfold header_due; destruct Hcsv as [-> | ->]; reflexivity |].
  split; [exact Hrows |].
  split; [apply header_not_in_batch_rows |].
  intros first earlier later _.
  destruct (save_batches_from_empty first earlier w Hcsv) as [_ Hrows'].
  unfold header_due. now rewrite Hrows'.
Qed.
End Recorder.

(* ===================================================================== *)
(** ** The route source and the monitor loop                              *)
(* ===================================================================== *)

(** The world after one more run of [ip route]. *)
Definition polled (w : world) : world :=
  mkWorld (source w) (S (polls w)) (clock w) (clock_reads w)
          (log w) (csv w) (console w).

(** A tracker that prints nothing, and a world at the start of a process:
    nothing polled, logged, written or printed yet. *)
Definition quiet_tracker : self_t :=
  mkSelf "." false "./routing_changes.log" "./routing_changes.csv".

Definition fresh_world (src : nat -> process_outcome) : world :=
  mkWorld src 0 (fun _ => "2024-01-01 00:00:00") 0 [] None [].

Section Monitor.
Variable self : self_t.

(** When [ip route] has run, whatever its exit status, its output is
    split into lines and nothing is logged. *)
Lemma get_current_routes_exited w rc out :
  source w (polls w) = Exited rc out ->
  get_current_routes self w = (Ok (splitlines out), polled w).
Proof.
  intros Hsrc.
  unfold get_current_routes, try_except_CalledProcessError, bind,
    subprocess_run.
  rewrite Hsrc. reflexivity.
Qed.

(** When [ip route] cannot be started the exception of [subprocess.run]
    is not a [CalledProcessError] and leaves [get_current_routes]. *)
Lemma get_current_routes_cannot_start w :
  source w (polls w) = CannotStart ->
  get_current_routes self w = (Raise FileNotFoundError, polled w).
Proof.
  intros Hsrc.
  unfold get_current_routes, try_except_CalledProcessError, bind,
    subprocess_run.
  rewrite Hsrc. reflexivity.
Qed.

(** C6 (no-op stability).  In a turn of the loop where [ip route] has run
    and the comparison of the baseline with the routes parsed from its
    output gives an empty [added] and an empty [removed], the turn ends
    normally with [previous_routes] and [previous_gateway] as they were,
    and the log file, the CSV file and the console are as before the
    turn. *)
Theorem monitor_cycle_no_change previous_routes previous_gateway w rc out :
  source w (polls w) = Exited rc out ->
  compare_routes self previous_routes
                 (fst (parse_routes self (splitlines out))) = Ok ([], []) ->
  fst (monitor_cycle self (previous_routes, previous_gateway) w)
  = Ok (previous_routes, previous_gateway) /\
  log (snd (monitor_cycle self (previous_routes, previous_gateway) w)) = log w /\
  csv (snd (monitor_cycle self (previous_routes, previous_gateway) w)) = csv w /\
  console (snd (monitor_cycle self (previous_routes, previous_gateway) w))
  = console w.
Proof.
  intros Hsrc Hcmp.
  unfold monitor_cycle, bind.
  rewrite (get_current_routes_exited w rc out Hsrc).
  unfold lift. cbn [fst]. rewrite Hcmp.
  unfold process_changes.
  destruct (parse_routes self (splitlines out)) as [current_routes current_gateway].
  simpl. auto.
Qed.

(** C7, at three concrete runs.  (1) [ip route] cannot be started: the
    call raises [FileNotFoundError], nothing is logged, and a loop that
    meets it ends with that exception.  (2) [ip route] exits with status
    2 and no output: the call returns no line and logs nothing.
    (3) [ip route] exits with status 1 after printing a route: the call
    returns that line. *)
Theorem get_current_routes_failures :
  get_current_routes self (fresh_world (fun _ => CannotStart))
  = (Raise FileNotFoundError, polled (fresh_world (fun _ => CannotStart)))
  /\ log (snd (get_current_routes self (fresh_world (fun _ => CannotStart)))) = []
  /\ fst (monitor_loop self 3 ([], None) (fresh_world (fun _ => CannotStart)))
     = Raise FileNotFoundError
  /\ get_current_routes self (fresh_world (fun _ => Exited 2 ""))
     = (Ok [], polled (fresh_world (fun _ => Exited 2 "")))
  /\ log (snd (get_current_routes self (fresh_world (fun _ => Exited 2 "")))) = []
  /\ fst (get_current_routes self
            (fresh_world (fun _ => Exited 1 "10.0.0.0/8 via 192.168.1.1")))
     = Ok ["10.0.0.0/8 via 192.168.1.1"].
Proof. repeat split; reflexivity. Qed.

End Monitor.

(* ===================================================================== *)
(** ** Instances                                                          *)
(* ===================================================================== *)

Definition route_10_via_1 : routes_t := [("10.0.0.0/8", (None, None, "192.168.1.1"))].
Definition route_10_via_2 : routes_t := [("10.0.0.0/8", (None, None, "192.168.1.2"))].

(** The blind spot on one destination whose next hop moves. *)
Lemma compare_routes_blind_spot_witness :
  (mem "10.0.0.0/8" route_10_via_1 = true /\
   mem "10.0.0.0/8" route_10_via_2 = true) /\
  exists added removed,
    compare_routes quiet_tracker route_10_via_1 route_10_via_2
    = Ok (added, removed) /\
    mem "10.0.0.0/8" added = false /\ mem "10.0.0.0/8" removed = false.
Proof.
  split; [split; reflexivity |].
  apply (compare_routes_blind_spot quiet_tracker route_10_via_1 route_10_via_2
                                   "10.0.0.0/8"); reflexivity.
Defined.

(** A turn of the loop that reads the baseline again. *)
Definition steady_world : world :=
  fresh_world (fun _ => Exited 0 ("10.0.0.0/8 via 192.168.1.1 dev eth0" ++ String LF "")).

Lemma monitor_cycle_no_change_witness :
  (source steady_world (polls steady_world)
   = Exited 0 ("10.0.0.0/8 via 192.168.1.1 dev eth0" ++ String LF "") /\
   compare_routes quiet_tracker route_10_via_1
     (fst (parse_routes quiet_tracker
             (splitlines ("10.0.0.0/8 via 192.168.1.1 dev eth0" ++ String LF ""))))
   = Ok ([], [])) /\
  (fst (monitor_cycle quiet_tracker (route_10_via_1, None) steady_world)
   = Ok (route_10_via_1, None) /\
   log (snd (monitor_cycle quiet_tracker (route_10_via_1, None) steady_world))
   = log steady_world /\
   csv (snd (monitor_cycle quiet_tracker (route_10_via_1, None) steady_world))
   = csv steady_world /\
   console (snd (monitor_cycle quiet_tracker (route_10_via_1, None) steady_world))
   = console steady_world).
Proof.
  split; [split; reflexivity |].
  apply (monitor_cycle_no_change quiet_tracker route_10_via_1 None steady_world 0
           ("10.0.0.0/8 via 192.168.1.1 dev eth0" ++ String LF ""));
    reflexivity.
Defined.

(** Two batches written to a file that does not exist yet. *)
Lemma csv_header_once_witness :
  (csv (fresh_world (fun _ => CannotStart)) = None \/
   csv (fresh_world (fun _ => CannotStart)) = Some []) /\
  fst (save_batches quiet_tracker
         [(route_10_via_1, []); ([], route_10_via_1)]
         (fresh_world (fun _ => CannotStart))) = Ok tt /\
  header_due (fresh_world (fun _ => CannotStart)) = [csv_header] /\
  csv (snd (save_batches quiet_tracker
              [(route_10_via_1, []); ([], route_10_via_1)]
              (fresh_world (fun _ => CannotStart))))
  = Some (csv_header
          :: batch_rows (clock (fresh_world (fun _ => CannotStart)))
                        (clock_reads (fresh_world (fun _ => CannotStart)))
                        [(route_10_via_1, []); ([], route_10_via_1)]) /\
  ~ In csv_header
       (batch_rows (clock (fresh_world (fun _ => CannotStart)))
                   (clock_reads (fresh_world (fun _ => CannotStart)))
                   [(route_10_via_1, []); ([], route_10_via_1)]) /\
  (forall first earlier later,
      [(route_10_via_1, []); ([], route_10_via_1)] = (first :: earlier) ++ later ->
      header_due (snd (save_batches quiet_tracker (first :: earlier)
                         (fresh_world (fun _ => CannotStart)))) = []).
Proof.
  split; [left; reflexivity |].
  apply (csv_header_once quiet_tracker (route_10_via_1, []) [([], route_10_via_1)]
                         (fresh_world (fun _ => CannotStart))).
  left; reflexivity.
Defined.


(* ===================================================================== *)
(** ** Tokens, whitespace and the two patterns                            *)
(* ===================================================================== *)

(** No character of [t] is whitespace. *)
Definition no_space (t : string) : bool :=
  forallb (fun c => negb (isspace c)) (list_ascii_of_string t).

(** Every character of [t] is whitespace. *)
Definition all_space (t : string) : bool :=
  forallb isspace (list_ascii_of_string t).

Definition nonempty (t : string) : bool :=
  match t with EmptyString => false | String _ _ => true end.

(** A token: one character or more, none of them whitespace. *)
Definition is_token (t : string) : bool := nonempty t && no_space t.

(** A gap between tokens: one whitespace character or more. *)
Definition is_gap (t : string) : bool := nonempty t && all_space t.

(** What may follow a token: the end of the line or whitespace. *)
Definition token_end (rest : string) : bool :=
  match rest with
  | EmptyString => true
  | String c _ => isspace c
  end.

(** What may follow a gap: the end of the line or a character that is not
    whitespace. *)
Definition gap_end (rest : string) : bool :=
  match rest with
  | EmptyString => true
  | String c _ => negb (isspace c)
  end.

(** No token of the line is the word [via]. *)
Definition no_via_token (line : string) : bool :=
  negb (existsb (String.eqb "via") (split line)).

Section StringFacts.
Local Open Scope string_scope.

Lemma append_assoc (a b c : string) : (a ++ b) ++ c = a ++ (b ++ c).
Proof. induction a as [| x a IH]; simpl; [reflexivity | now rewrite IH]. Qed.

Lemma append_nil_r (a : string) : a ++ "" = a.
Proof. induction a as [| x a IH]; simpl; [reflexivity | now rewrite IH]. Qed.

Lemma take_length_app (t rest : string) : take (String.length t) (t ++ rest) = t.
Proof. induction t as [| c t IH]; simpl; [now destruct rest | now rewrite IH]. Qed.

Lemma drop_length_app (t rest : string) : drop (String.length t) (t ++ rest) = rest.
Proof. induction t as [| c t IH]; simpl; [now destruct rest | exact IH]. Qed.

Lemma take_drop (n : nat) (s : string) : take n s ++ drop n s = s.
Proof.
  revert s. induction n as [| n IH]; intros [| c s]; simpl; auto.
  now rewrite IH.
Qed.

Lemma in_class_nonspace c : in_class NonSpace c = negb (isspace c).
Proof. reflexivity. Qed.

(** A token followed by the end of the line or by whitespace is the whole
    run of [\S] at its place; a gap followed by the end of the line or by
    another character is the whole run of [\s]. *)
Lemma run_length_token t rest :
  no_space t = true -> token_end rest = true ->
  run_length NonSpace (t ++ rest) = String.length t.
Proof.
  unfold no_space. intros Ht Hr.
  induction t as [| c t IH]; simpl in *.
  - destruct rest as [| r rest]; simpl in *; auto. now rewrite Hr.
  - apply andb_prop in Ht. destruct Ht as [Hc Ht]. rewrite Hc.
    now rewrite IH.
Qed.

Lemma run_length_gap t rest :
  all_space t = true -> gap_end rest = true ->
  run_length Space (t ++ rest) = String.length t.
Proof.
  unfold all_space. intros Ht Hr.
  induction t as [| c t IH]; simpl in *.
  - destruct rest as [| r rest]; simpl in *; auto.
    apply negb_true_iff in Hr. now rewrite Hr.
  - apply andb_prop in Ht. destruct Ht as [Hc Ht]. rewrite Hc.
    now rewrite IH.
Qed.

Lemma nonempty_length t : nonempty t = true -> 1 <= String.length t.
Proof. destruct t; simpl; [discriminate | lia]. Qed.

Lemma token_gap_end t rest :
  is_token t = true -> gap_end (t ++ rest) = true.
Proof.
  unfold is_token, no_space. destruct t as [| c t]; simpl; [discriminate |].
  intros H. now apply andb_prop in H.
Qed.

Lemma gap_token_end t rest :
  is_gap t = true -> token_end (t ++ rest) = true.
Proof.
  unfold is_gap, all_space. destruct t as [| c t]; simpl; [discriminate |].
  intros H. now apply andb_prop in H.
Qed.

(** The first success of a greedy repetition. *)
Lemma backtrack_first {A} (try : nat -> option A) n r :
  1 <= n -> try n = Some r -> backtrack try n = Some r.
Proof.
  destruct n as [| n]; [lia |]. intros _ H. simpl. now rewrite H.
Qed.

(** A repetition that succeeds does so at some length between one and the
    length of the run. *)
Lemma backtrack_some {A} (try : nat -> option A) n r :
  backtrack try n = Some r -> exists k, 1 <= k <= n /\ try k = Some r.
Proof.
  induction n as [| n IH]; simpl; [discriminate |].
  destruct (try (S n)) as [r' |] eqn:E.
  - intros H. injection H as <-. exists (S n). split; [lia | assumption].
  - intros H. destruct (IH H) as [k [Hk Hr]]. exists k. split; [lia | assumption].
Qed.

Lemma backtrack_none {A} (try : nat -> option A) n :
  (forall k, 1 <= k <= n -> try k = None) -> backtrack try n = None.
Proof.
  induction n as [| n IH]; simpl; auto.
  intros H. rewrite (H (S n)) by lia. apply IH. intros k Hk. apply H. lia.
Qed.

(** Inside a run of class [k], the character before position [n] is of
    class [k] and the first [n] characters all are. *)
Lemma run_length_split k n s :
  1 <= n <= run_length k s ->
  exists x w, s = x ++ String w (drop n s) /\ in_class k w = true.
Proof.
  revert s. induction n as [| n IH]; intros s Hn; [lia |].
  destruct s as [| c s]; simpl in Hn; [lia |].
  destruct (in_class k c) eqn:Hc; [| lia].
  destruct n as [| n].
  - exists "", c. simpl. auto.
  - destruct (IH s) as [x [w [Hs Hw]]]; [lia |].
    exists (String c x), w. simpl. split; auto.
    simpl in Hs. now rewrite <- Hs.
Qed.

Lemma run_length_take k n s :
  n <= run_length k s ->
  forallb (in_class k) (list_ascii_of_string (take n s)) = true.
Proof.
  revert s. induction n as [| n IH]; intros s Hn; simpl; auto.
  destruct s as [| c s]; simpl in *; [lia |].
  destruct (in_class k c) eqn:Hc; [| lia]. simpl.
  apply IH. lia.
Qed.

Lemma take_nonempty n s :
  1 <= n <= String.length s -> nonempty (take n s) = true.
Proof.
  destruct n as [| n]; [lia |]. destruct s; simpl; [lia | reflexivity].
Qed.

Lemma run_length_le k s : run_length k s <= String.length s.
Proof.
  induction s as [| c s IH]; simpl; auto. destruct (in_class k c); lia.
Qed.

(** A group [(\S+)] captures a token. *)
Lemma take_run_token n s :
  1 <= n <= run_length NonSpace s -> is_token (take n s) = true.
Proof.
  intros Hn. unfold is_token. apply andb_true_intro. split.
  - apply take_nonempty. pose proof (run_length_le NonSpace s). lia.
  - unfold no_space. apply (run_length_take NonSpace). lia.
Qed.

(** Literal characters match themselves and nothing else. *)
Lemma match_here_lits p pat s g :
  match_here (lits p ++ pat)%list (p ++ s) g = match_here pat s g.
Proof.
  induction p as [| c p IH]; simpl; auto. now rewrite Ascii.eqb_refl.
Qed.

Lemma match_here_lits_inv p pat s g r :
  match_here (lits p ++ pat)%list s g = Some r ->
  exists s', s = p ++ s' /\ match_here pat s' g = Some r.
Proof.
  revert s. induction p as [| c p IH]; intros s; simpl.
  - intros H. exists s. auto.
  - destruct s as [| c' s]; [discriminate |].
    destruct (Ascii.eqb_spec c c') as [<- | Hne]; [| discriminate].
    intros H. destruct (IH s H) as [s' [-> Hm]]. exists s'. auto.
Qed.

End StringFacts.

Section PatternFacts.
Local Open Scope string_scope.

Lemma match_here_group k pat s g :
  match_here (GroupPlus k :: pat) s g
  = backtrack (fun n => match_here pat (drop n s) (g ++ [take n s])%list)
              (run_length k s).
Proof. reflexivity. Qed.

Lemma match_here_plus k pat s g :
  match_here (Plus k :: pat) s g
  = backtrack (fun n => match_here pat (drop n s) g) (run_length k s).
Proof. reflexivity. Qed.

Lemma re_via_unfold :
  re_via = (GroupPlus NonSpace :: Plus Space
            :: lits "via" ++ [Plus Space; GroupPlus NonSpace])%list.
Proof. reflexivity. Qed.

Lemma search_here pat s m :
  match_here pat s [] = Some m -> search pat s = Some m.
Proof. intros H. destruct s; simpl; now rewrite H. Qed.

Lemma search_some pat s m :
  search pat s = Some m ->
  exists pre s', s = pre ++ s' /\ match_here pat s' [] = Some m.
Proof.
  induction s as [| c s IH]; simpl.
  - destruct (match_here pat "" []) eqn:E; [| discriminate].
    intros H. injection H as <-. exists "", "". auto.
  - destruct (match_here pat (String c s) []) eqn:E.
    + intros H. injection H as <-. exists "", (String c s). auto.
    + intros H. destruct (IH H) as [pre [s' [-> Hm]]].
      exists (String c pre), s'. auto.
Qed.

(** [token gap via gap token], read from its first character: the two
    groups are the two tokens. *)
Lemma match_re_via d g1 g2 a rest :
  is_token d = true -> is_gap g1 = true -> is_gap g2 = true ->
  is_token a = true -> token_end rest = true ->
  match_here re_via (d ++ g1 ++ "via" ++ g2 ++ a ++ rest) [] = Some [d; a].
Proof.
  intros Hd Hg1 Hg2 Ha Hrest.
  pose proof Hd as Hd'. pose proof Ha as Ha'.
  pose proof Hg1 as Hg1'. pose proof Hg2 as Hg2'.
  unfold is_token in Hd', Ha'. unfold is_gap in Hg1', Hg2'.
  apply andb_prop in Hd', Ha', Hg1', Hg2'.
  destruct Hd' as [Hd1 Hd2], Ha' as [Ha1 Ha2],
           Hg1' as [Hg11 Hg12], Hg2' as [Hg21 Hg22].
  rewrite re_via_unfold, match_here_group.
  rewrite run_length_token; auto using gap_token_end.
  apply backtrack_first; [now apply nonempty_length |].
  rewrite drop_length_app, take_length_app, match_here_plus.
  rewrite run_length_gap; auto.
  apply backtrack_first; [now apply nonempty_length |].
  rewrite drop_length_app, match_here_lits, match_here_plus.
  rewrite run_length_gap; auto using token_gap_end.
  apply backtrack_first; [now apply nonempty_length |].
  rewrite drop_length_app, match_here_group.
  rewrite run_length_token; auto.
  apply backtrack_first; [now apply nonempty_length |].
  rewrite drop_length_app, take_length_app. reflexivity.
Qed.

(** [default via token], read from its first character. *)
Lemma match_re_default_via a rest :
  is_token a = true -> token_end rest = true ->
  match_here re_default_via ("default via " ++ a ++ rest) [] = Some [a].
Proof.
  intros Ha Hrest. pose proof Ha as Ha'. unfold is_token in Ha'.
  apply andb_prop in Ha'. destruct Ha' as [Ha1 Ha2].
  unfold re_default_via. rewrite match_here_lits, match_here_group.
  rewrite run_length_token; auto.
  apply backtrack_first; [now apply nonempty_length |].
  rewrite drop_length_app, take_length_app. reflexivity.
Qed.

(** The groups of a match of either pattern are tokens. *)
Lemma match_re_via_groups s m :
  match_here re_via s [] = Some m ->
  exists t1 t2, m = [t1; t2] /\ is_token t1 = true /\ is_token t2 = true.
Proof.
  rewrite re_via_unfold, match_here_group. intros H.
  apply backtrack_some in H. destruct H as [k1 [Hk1 H]].
  rewrite match_here_plus in H.
  apply backtrack_some in H. destruct H as [k2 [Hk2 H]].
  apply match_here_lits_inv in H. destruct H as [s3 [Hs3 H]].
  rewrite match_here_plus in H.
  apply backtrack_some in H. destruct H as [k3 [Hk3 H]].
  rewrite match_here_group in H.
  apply backtrack_some in H. destruct H as [k4 [Hk4 H]].
  simpl in H. injection H as <-.
  eexists _, _. split; [reflexivity |].
  split; now apply take_run_token.
Qed.

Lemma match_re_default_via_groups s m :
  match_here re_default_via s [] = Some m ->
  exists t, m = [t] /\ is_token t = true.
Proof.
  unfold re_default_via. intros H.
  apply match_here_lits_inv in H. destruct H as [s1 [Hs1 H]].
  rewrite match_here_group in H.
  apply backtrack_some in H. destruct H as [k [Hk H]].
  simpl in H. injection H as <-.
  eexists. split; [reflexivity |]. now apply take_run_token.
Qed.

(** Where either pattern matches, the word [via] stands between two
    whitespace characters. *)
Definition via_between_spaces (s : string) : Prop :=
  exists x w w2 post,
    isspace w = true /\ isspace w2 = true /\
    s = x ++ String w ("via" ++ String w2 post).

Lemma run_length_head k s :
  1 <= run_length k s -> exists w post, s = String w post /\ in_class k w = true.
Proof.
  destruct s as [| c s]; simpl; [lia |].
  destruct (in_class k c) eqn:E; [| lia]. intros _. exists c, s. auto.
Qed.

Lemma match_re_via_word s g m :
  match_here re_via s g = Some m -> via_between_spaces s.
Proof.
  rewrite re_via_unfold, match_here_group. intros H.
  apply backtrack_some in H. destruct H as [k1 [Hk1 H]].
  rewrite match_here_plus in H.
  apply backtrack_some in H. destruct H as [k2 [Hk2 H]].
  apply match_here_lits_inv in H. destruct H as [s3 [Hs3 H]].
  rewrite match_here_plus in H.
  apply backtrack_some in H. destruct H as [k3 [Hk3 _]].
  destruct (run_length_split Space k2 (drop k1 s) Hk2) as [x [w [Hx Hw]]].
  destruct (run_length_head Space s3) as [w2 [post [-> Hw2]]]; [lia |].
  exists (take k1 s ++ x), w, w2, post. repeat split; auto.
  rewrite append_assoc, <- Hs3, <- Hx. symmetry. apply take_drop.
Qed.


End PatternFacts.

Section SplitFacts.
Local Open Scope string_scope.

Lemma split_aux_space w s cur :
  isspace w = true ->
  split_aux (String w s) cur
  = (match cur with
     | [] => []
     | _ => [string_of_list_ascii (rev cur)]
     end ++ split_aux s [])%list.
Proof. intros Hw. simpl. now rewrite Hw. Qed.



(** A blank line has no token. *)
Lemma split_blank s : all_space s = true -> split s = [].
Proof.
  unfold all_space, split. induction s as [| c s IH]; simpl; auto.
  intros H. apply andb_prop in H. destruct H as [Hc Hs].
  rewrite Hc. simpl. auto.
Qed.

(** The tokens of what follows a whitespace character are tokens of the
    whole line. *)
Lemma split_aux_suffix x w y cur t :
  isspace w = true ->
  In t (split_aux y []) -> In t (split_aux (x ++ String w y) cur).
Proof.
  intros Hw Hin. revert cur. induction x as [| c x IH]; intros cur.
  - simpl append. rewrite split_aux_space by assumption.
    apply in_or_app. now right.
  - simpl. destruct (isspace c).
    + apply in_or_app. right. apply IH.
    + apply IH.
Qed.

Lemma via_between_spaces_token pre s :
  via_between_spaces s -> In "via" (split (pre ++ s)).
Proof.
  intros [x [w [w2 [post [Hw [Hw2 ->]]]]]]. unfold split.
  rewrite <- append_assoc. apply split_aux_suffix; auto.
  simpl. rewrite Hw2. simpl. now left.
Qed.

(** A line without the token [via] matches neither pattern. *)
Lemma search_no_via pat line :
  (forall s m, match_here pat s [] = Some m -> via_between_spaces s) ->
  no_via_token line = true -> search pat line = None.
Proof.
  intros Hpat Hno. destruct (search pat line) as [m |] eqn:E; auto.
  apply search_some in E. destruct E as [pre [s' [-> Hm]]].
  apply Hpat in Hm. apply (via_between_spaces_token pre) in Hm.
  unfold no_via_token in Hno. apply negb_true_iff in Hno.
  assert (Ht : existsb (String.eqb "via") (split (pre ++ s')) = true).
  { apply existsb_exists. exists "via". split; auto. }
  congruence.
Qed.

Lemma search_re_via_no_via line :
  no_via_token line = true -> search re_via line = None.
Proof. apply search_no_via. intros s m. apply match_re_via_word. Qed.


(** Every element of [line.split()] is a token. *)
Lemma split_aux_tokens s cur :
  forallb (fun c => negb (isspace c)) cur = true ->
  Forall (fun t => is_token t = true) (split_aux s cur).
Proof.
  assert (Hflush : forall cur,
             forallb (fun c => negb (isspace c)) cur = true ->
             Forall (fun t => is_token t = true)
                    match cur with
                    | [] => []
                    | _ => [string_of_list_ascii (rev cur)]
                    end).
  { intros [| c cur'] Hcur; constructor; [| constructor].
    unfold is_token, no_space.
    rewrite list_ascii_of_string_of_list_ascii.
    apply andb_true_intro. split.
    - simpl. destruct (rev cur') ; reflexivity.
    - apply forallb_forall. intros y Hy. apply in_rev in Hy.
      revert y Hy. now apply forallb_forall. }
  revert cur. induction s as [| c s IH]; intros cur Hcur; simpl.
  - now apply Hflush.
  - destruct (isspace c) eqn:Hc.
    + apply Forall_app. split; [now apply Hflush | now apply IH].
    + apply IH. simpl. now rewrite Hc.
Qed.

Lemma split_tokens line : Forall (fun t => is_token t = true) (split line).
Proof. now apply split_aux_tokens. Qed.

(** [startswith] looks at the first token only. *)
Lemma startswith_token p d rest :
  no_space p = true -> token_end rest = true ->
  startswith (d ++ rest) p = startswith d p.
Proof.
  unfold startswith, no_space. revert p.
  induction d as [| c d IH]; intros p Hp Hrest.
  - destruct p as [| a p]; destruct rest as [| w rest]; simpl in *; auto.
    apply andb_prop in Hp. destruct Hp as [Ha _].
    destruct (ascii_dec a w) as [-> | Hne]; auto.
    rewrite Hrest in Ha. discriminate.
  - destruct p as [| a p]; simpl in *; auto.
    apply andb_prop in Hp. destruct Hp as [_ Hp].
    destruct (ascii_dec a c); auto.
Qed.

Lemma startswith_blank line :
  all_space line = true -> startswith line "default" = false.
Proof.
  unfold all_space, startswith. destruct line as [| c line]; [reflexivity |].
  intros H. simpl in H. apply andb_prop in H. destruct H as [Hc _].
  change (String.prefix "default" (String c line))
    with (if ascii_dec "d" c then String.prefix "efault" line else false).
  destruct (ascii_dec "d" c) as [<- | Hne]; [| reflexivity].
  vm_compute in Hc. discriminate.
Qed.

End SplitFacts.

(* ===================================================================== *)
(** ** The parser, line by line                                           *)
(* ===================================================================== *)

Section ParserLines.
Variable self : self_t.
Local Open Scope string_scope.

Lemma parse_routes_snoc output line :
  parse_routes self (output ++ [line])%list
  = parse_line (parse_routes self output) line.
Proof. unfold parse_routes. now rewrite fold_left_app. Qed.

Lemma parse_line_via st d g1 g2 a rest :
  is_token d = true -> is_gap g1 = true -> is_gap g2 = true ->
  is_token a = true -> token_end rest = true ->
  startswith d "default" = false ->
  parse_line st (d ++ g1 ++ "via" ++ g2 ++ a ++ rest)
  = (set d (None, None, a) (fst st), snd st).
Proof.
  intros Hd Hg1 Hg2 Ha Hrest Hdef. destruct st as [routes gateway].
  unfold parse_line.
  rewrite startswith_token, Hdef; auto using gap_token_end.
  rewrite (search_here _ _ _ (match_re_via d g1 g2 a rest Hd Hg1 Hg2 Ha Hrest)).
  reflexivity.
Qed.

Lemma parse_line_default_via st a rest :
  is_token a = true -> token_end rest = true ->
  parse_line st ("default via " ++ a ++ rest) = (fst st, Some a).
Proof.
  intros Ha Hrest. destruct st as [routes gateway]. unfold parse_line.
  change ("default via " ++ a ++ rest) with ("default" ++ " via " ++ a ++ rest) at 1.
  rewrite startswith_token by reflexivity.
  change (startswith "default" "default") with true. cbv iota.
  change ("default" ++ " via " ++ a ++ rest) with ("default via " ++ a ++ rest).
  rewrite (search_here _ _ _ (match_re_default_via a rest Ha Hrest)).
  reflexivity.
Qed.



Lemma parse_line_blank st line :
  all_space line = true -> parse_line st line = st.
Proof.
  intros Hb. destruct st as [routes gateway]. unfold parse_line.
  rewrite startswith_blank by assumption.
  assert (Hno : no_via_token line = true)
    by (unfold no_via_token; now rewrite split_blank).
  rewrite search_re_via_no_via by assumption.
  now rewrite split_blank.
Qed.

(** What one line can do: nothing, set the gateway (only a line that
    starts with [default]), or store one route with empty
    [admin_distance] and [metric]; what it stores are tokens. *)
Lemma parse_line_cases st line :
  parse_line st line = st
  \/ (exists g, is_token g = true /\ startswith line "default" = true /\
                parse_line st line = (fst st, Some g))
  \/ (exists k nh, is_token k = true /\ is_token nh = true /\
                   parse_line st line = (set k (None, None, nh) (fst st), snd st)).
Proof.
  destruct st as [routes gateway].
  assert (Hrest :
    forall r,
      r = match search re_via line with
          | Some m => (set (group 1 m) (None, None, group 2 m) routes, gateway)
          | None =>
              match split line with
              | destination :: _ =>
                  if negb (String.eqb destination "default")
                  then (set destination (None, None, "direct") routes, gateway)
                  else (routes, gateway)
              | []%list => (routes, gateway)
              end
          end ->
      r = (routes, gateway)
      \/ (exists k nh, is_token k = true /\ is_token nh = true /\
                       r = (set k (None, None, nh) routes, gateway))).
  { intros r ->. destruct (search re_via line) as [m |] eqn:Ev.
    - apply search_some in Ev. destruct Ev as [pre [s' [_ Hm]]].
      apply match_re_via_groups in Hm.
      destruct Hm as [t1 [t2 [-> [H1 H2]]]].
      right. exists t1, t2. auto.
    - pose proof (split_tokens line) as Htok.
      destruct (split line) as [| destination parts]; auto.
      destruct (negb (String.eqb destination "default")); auto.
      right. exists destination, "direct". inversion Htok. auto. }
  unfold parse_line. simpl fst. simpl snd.
  destruct (startswith line "default") eqn:Hstart.
  - destruct (search re_default_via line) as [m |] eqn:Ed.
    + apply search_some in Ed. destruct Ed as [pre [s' [_ Hm]]].
      apply match_re_default_via_groups in Hm. destruct Hm as [t [-> Ht]].
      right. left. exists t. auto.
    + destruct (Hrest _ eq_refl) as [H | H]; [left | right; right]; exact H.
  - destruct (Hrest _ eq_refl) as [H | H]; [left | right; right]; exact H.
Qed.

Lemma parse_routes_invariant (P : routes_t * option string -> Prop) output :
  P ([], None) ->
  (forall st line, In line output -> P st -> P (parse_line st line)) ->
  P (parse_routes self output).
Proof.
  unfold parse_routes. generalize (@nil (string * route_info), @None string).
  induction output as [| line output IH]; intros st H0 Hstep; simpl; auto.
  apply IH.
  - apply Hstep; [now left | assumption].
  - intros st' line' Hin. apply Hstep. now right.
Qed.

End ParserLines.

Section DictInvariants.
Context {V : Type}.
Implicit Types (d : dict V) (k : string) (v : V).

Lemma keys_set d k v :
  keys (set k v d) = if mem k d then keys d else (keys d ++ [k])%list.
Proof.
  unfold mem. induction d as [| [k' v'] d IH]; simpl; auto.
  destruct (String.eqb k k') eqn:E; simpl; auto.
  rewrite IH. destruct (get d k); reflexivity.
Qed.

Lemma set_keys_nodup d k v : NoDup (keys d) -> NoDup (keys (set k v d)).
Proof.
  intros Hd. rewrite keys_set. destruct (mem k d) eqn:Hm; auto.
  apply NoDup_app; auto.
  - repeat constructor. intros [].
  - intros x Hx [<- | []].
    apply mem_true_iff in Hx. congruence.
Qed.

Lemma set_Forall (P : string * V -> Prop) d k v :
  P (k, v) -> Forall P d -> Forall P (set k v d).
Proof.
  intros Hkv Hd. induction Hd as [| [k' v'] d Hx Hd IH]; simpl.
  - repeat constructor. assumption.
  - destruct (String.eqb_spec k k') as [<- | Hne]; constructor; auto.
Qed.

Lemma get_In d k v : get d k = Some v -> In (k, v) d.
Proof.
  induction d as [| [k' v'] d IH]; simpl; [discriminate |].
  destruct (String.eqb_spec k k') as [<- | Hne].
  - intros H. injection H as <-. now left.
  - intros H. right. auto.
Qed.

(** The first line does not shadow anything in a dictionary with unique
    keys: every item can be looked up. *)
Lemma In_get d k v : NoDup (keys d) -> In (k, v) d -> get d k = Some v.
Proof.
  induction d as [| [k' v'] d IH]; simpl; [intros _ [] |].
  intros Hnd Hin. inversion Hnd as [| ? ? Hnotin Hnd']; subst.
  destruct Hin as [Heq | Hin].
  - injection Heq as -> ->. now rewrite String.eqb_refl.
  - destruct (String.eqb_spec k k') as [-> | Hne]; auto.
    exfalso. apply Hnotin. apply in_map_iff. exists (k', v). auto.
Qed.
End DictInvariants.

(* ===================================================================== *)
(** ** Properties of [parse_routes]                                       *)
(* ===================================================================== *)

Section ParserProperties.
Variable self : self_t.
Local Open Scope string_scope.

(** A line [<dest> via <addr> ...], whose first token does not start with
    [default] and is followed directly by [via]: the route [<dest>] is set
    to [(None, None, <addr>)], replacing an earlier route of that name, and
    the gateway stays as it was. *)
Theorem parse_routes_via_line output d g1 g2 a rest :
  is_token d = true -> is_gap g1 = true -> is_gap g2 = true ->
  is_token a = true -> token_end rest = true ->
  startswith d "default" = false ->
  parse_routes self (output ++ [(d ++ g1 ++ "via" ++ g2 ++ a ++ rest)%string])%list
  = (set d (None, None, a) (fst (parse_routes self output)),
     snd (parse_routes self output)).
Proof.
  intros. rewrite parse_routes_snoc. now apply parse_line_via.
Qed.

(** A line [default via <addr> ...] makes [<addr>] the gateway, replacing
    an earlier one, and stores no route. *)
Theorem parse_routes_default_via_line output a rest :
  is_token a = true -> token_end rest = true ->
  parse_routes self (output ++ [("default via " ++ a ++ rest)%string])%list
  = (fst (parse_routes self output), Some a).
Proof.
  intros. rewrite parse_routes_snoc. now apply parse_line_default_via.
Qed.



(** An empty line or a line of whitespace, anywhere in the output, is
    skipped. *)
Theorem parse_routes_blank_line before line after :
  all_space line = true ->
  parse_routes self (before ++ line :: after)%list
  = parse_routes self (before ++ after)%list.
Proof.
  intros Hb. unfold parse_routes. rewrite !fold_left_app. simpl.
  now rewrite parse_line_blank.
Qed.

(** The keys of the dictionary returned are pairwise distinct. *)
Theorem parse_routes_keys_nodup output :
  NoDup (keys (fst (parse_routes self output))).
Proof.
  apply (parse_routes_invariant self (fun st => NoDup (keys (fst st)))).
  - constructor.
  - intros st line _ Hst.
    destruct (parse_line_cases st line) as [-> | [[g [_ [_ ->]]] | [k [nh [_ [_ ->]]]]]];
      auto.
    now apply set_keys_nodup.
Qed.

(** Every route stored has [None] for [admin_distance] and for [metric]. *)
Theorem parse_routes_metrics_none output k v :
  get (fst (parse_routes self output)) k = Some v -> fst v = (None, None).
Proof.
  intros Hget. apply get_In in Hget.
  assert (Hall : Forall (fun kv : string * route_info => fst (snd kv) = (None, None))
                        (fst (parse_routes self output))).
  { apply (parse_routes_invariant self
             (fun st => Forall (fun kv : string * route_info =>
                                  fst (snd kv) = (None, None)) (fst st))).
    - constructor.
    - intros st line _ Hst.
      destruct (parse_line_cases st line)
        as [-> | [[g [_ [_ ->]]] | [k' [nh [_ [_ ->]]]]]]; auto.
      now apply set_Forall. }
  rewrite Forall_forall in Hall. apply (Hall (k, v) Hget).
Qed.

(** Every key, every next hop and the gateway, when there is one, is a
    token: not empty and free of whitespace. *)
Theorem parse_routes_tokens output :
  Forall (fun kv : string * route_info =>
            is_token (fst kv) = true /\ is_token (snd (snd kv)) = true)
         (fst (parse_routes self output)) /\
  (forall g, snd (parse_routes self output) = Some g -> is_token g = true).
Proof.
  apply (parse_routes_invariant self
           (fun st =>
              Forall (fun kv : string * route_info =>
                        is_token (fst kv) = true /\ is_token (snd (snd kv)) = true)
                     (fst st) /\
              (forall g, snd st = Some g -> is_token g = true))).
  - split; [constructor | discriminate].
  - intros st line _ [Hr Hg].
    destruct (parse_line_cases st line)
      as [-> | [[g [Htg [_ ->]]] | [k [nh [Hk [Hnh ->]]]]]]; simpl; auto.
    + split; auto. intros g' H. now injection H as <-.
    + split; auto. apply set_Forall; auto.
Qed.

(** Without a line that starts with [default] there is no gateway. *)
Theorem parse_routes_gateway_none output :
  forallb (fun line => negb (startswith line "default")) output = true ->
  snd (parse_routes self output) = None.
Proof.
  intros Hall. rewrite forallb_forall in Hall.
  apply (parse_routes_invariant self (fun st => snd st = None)); auto.
  intros st line Hin Hst.
  destruct (parse_line_cases st line)
    as [-> | [[g [_ [Hs _]]] | [k [nh [_ [_ ->]]]]]]; auto.
  apply Hall in Hin. rewrite Hs in Hin. discriminate.
Qed.

End ParserProperties.

(* ===================================================================== *)
(** ** Further properties of [compare_routes]                             *)
(* ===================================================================== *)

(** The items of [src] whose key [other] lacks, in the order of [src]. *)
Definition lacking (other src : routes_t) : routes_t :=
  filter (fun kv => negb (mem (fst kv) other)) src.

Section DifferProperties.
Variable self : self_t.
Implicit Types (A B src other acc : routes_t).

Lemma set_fresh {V} (d : dict V) k v :
  mem k d = false -> set k v d = d ++ [(k, v)].
Proof.
  unfold mem. induction d as [| [k' v'] d IH]; simpl; auto.
  destruct (String.eqb k k'); [discriminate |].
  intros H. now rewrite IH.
Qed.

Lemma mem_filter_false {V} (f : string * V -> bool) (d : dict V) k :
  mem k d = false -> mem k (filter f d) = false.
Proof.
  intros H. destruct (mem k (filter f d)) eqn:E; auto.
  apply mem_true_iff in E. apply in_map_iff in E.
  destruct E as [[k' v] [Hk Hin]]. simpl in Hk. subst k'.
  apply filter_In in Hin. destruct Hin as [Hin _].
  assert (In k (keys d)) by (apply in_map_iff; exists (k, v); auto).
  apply mem_true_iff in H0. congruence.
Qed.

Lemma only_in_lacking_gen other pre suf :
  NoDup (keys (pre ++ suf)) ->
  only_in (pre ++ suf) other (keys suf) (lacking other pre)
  = Ok (lacking other (pre ++ suf)).
Proof.
  revert pre. induction suf as [| [k v] suf IH]; intros pre Hnd.
  - simpl. now rewrite app_nil_r.
  - assert (Hassoc : pre ++ (k, v) :: suf = (pre ++ [(k, v)]) ++ suf)
      by (now rewrite <- app_assoc).
    assert (Hfresh : mem k pre = false).
    { destruct (mem k pre) eqn:E; auto. apply mem_true_iff in E.
      unfold keys in Hnd. rewrite map_app in Hnd. simpl in Hnd.
      apply NoDup_remove_2 in Hnd. exfalso. apply Hnd.
      apply in_or_app. now left. }
    simpl keys. simpl only_in.
    rewrite (In_get (pre ++ (k, v) :: suf) k v Hnd)
      by (apply in_or_app; right; now left).
    specialize (IH (pre ++ [(k, v)])). rewrite <- Hassoc in IH.
    specialize (IH Hnd).
    unfold lacking in IH at 1. rewrite filter_app in IH. simpl in IH.
    destruct (negb (mem k other)) eqn:Hk.
    + rewrite set_fresh by (now apply mem_filter_false). exact IH.
    + rewrite app_nil_r in IH. exact IH.
Qed.

Lemma only_in_lacking src other :
  NoDup (keys src) -> only_in src other (keys src) [] = Ok (lacking other src).
Proof. intros Hnd. apply (only_in_lacking_gen other [] src Hnd). Qed.

(** On dictionaries with unique keys, [added] is the items of [after]
    whose key [before] lacks, in the order of [after], and [removed] the
    items of [before] whose key [after] lacks, in the order of [before]. *)
Theorem compare_routes_order A B :
  NoDup (keys A) -> NoDup (keys B) ->
  compare_routes self A B = Ok (lacking A B, lacking B A).
Proof.
  intros HA HB. unfold compare_routes.
  now rewrite !only_in_lacking.
Qed.

(** No destination is reported both as added and as removed. *)
Theorem compare_routes_disjoint A B :
  exists added removed,
    compare_routes self A B = Ok (added, removed) /\
    forall d, mem d added && mem d removed = false.
Proof.
  destruct (compare_routes_get self A B) as [added [removed [Hc [Ha Hr]]]].
  exists added, removed. split; auto.
  intros d. unfold mem at 1 2. rewrite Ha, Hr.
  destruct (mem d A) eqn:HA; simpl; auto.
  apply mem_false_get in HA. rewrite HA.
  destruct (get B d); destruct (mem d B); reflexivity.
Qed.

(** Swapping the two tables swaps the two results. *)
Theorem compare_routes_swap A B :
  exists added removed,
    compare_routes self A B = Ok (added, removed) /\
    compare_routes self B A = Ok (removed, added).
Proof.
  destruct (only_in_keys B A) as [added [Ha _]].
  destruct (only_in_keys A B) as [removed [Hr _]].
  exists added, removed. unfold compare_routes. now rewrite Ha, Hr.
Qed.

Lemma compare_routes_same A : compare_routes self A A = Ok ([], []).
Proof.
  destruct (compare_routes_get self A A) as [added [removed [Hc [Ha Hr]]]].
  rewrite Hc.
  assert (Hnone : forall k, (if mem k A then None else get A k) = None).
  { intros k. destruct (mem k A) eqn:E; auto. now apply mem_false_get. }
  assert (added = []) as ->
      by (apply get_all_None; intros k; rewrite Ha; apply Hnone).
  assert (removed = []) as ->
      by (apply get_all_None; intros k; rewrite Hr; apply Hnone).
  reflexivity.
Qed.

(** Nothing is reported exactly when the two tables have the same
    destinations. *)
Theorem compare_routes_silent_iff A B :
  compare_routes self A B = Ok ([], []) <-> forall d, mem d A = mem d B.
Proof.
  destruct (compare_routes_get self A B) as [added [removed [Hc [Ha Hr]]]].
  split.
  - intros H. rewrite Hc in H. injection H as -> ->. intros d.
    specialize (Ha d). specialize (Hr d). simpl in Ha, Hr.
    destruct (mem d A) eqn:HA; destruct (mem d B) eqn:HB; auto.
    + apply mem_true_get in HA. destruct HA as [v Hv]. congruence.
    + apply mem_true_get in HB. destruct HB as [v Hv]. congruence.
  - intros Hsame. rewrite Hc.
    assert (added = []) as ->.
    { apply get_all_None. intros k. rewrite Ha.
      destruct (mem k A) eqn:E; auto.
      apply mem_false_get. now rewrite <- Hsame. }
    assert (removed = []) as ->.
    { apply get_all_None. intros k. rewrite Hr.
      destruct (mem k B) eqn:E; auto.
      apply mem_false_get. now rewrite Hsame. }
    reflexivity.
Qed.

Lemma lacking_nil src : lacking [] src = src.
Proof.
  unfold lacking. induction src as [| kv src IH]; simpl; auto.
  f_equal. exact IH.
Qed.

(** Against an empty table every route counts: an empty new table reports
    the whole baseline as removed, and an empty baseline reports the whole
    new table as added. *)
Theorem compare_routes_empty A :
  NoDup (keys A) ->
  compare_routes self A [] = Ok ([], A) /\
  compare_routes self [] A = Ok (A, []).
Proof.
  intros HA. unfold compare_routes. simpl.
  rewrite only_in_lacking by assumption. now rewrite lacking_nil.
Qed.

End DifferProperties.

(* ===================================================================== *)
(** ** Further properties of the loop                                     *)
(* ===================================================================== *)

(** The records that [log_changes] adds to the log. *)
Definition log_lines (added removed : routes_t) : list log_record :=
  (if truthy added then [INFO (AddedRoutes (keys added) (values added))] else [])
  ++ (if truthy removed
      then [INFO (RemovedRoutes (keys removed) (values removed))] else []).

(** What [print_route_summary] sends to the console. *)
Definition summary_lines (self : self_t) (routes : routes_t)
           (gateway : option string) : list console_event :=
  if log_to_console self then
    [OutRouteSummary
       (List.length routes)
       (count_if (fun it => String.eqb (snd (snd it)) "direct") (items routes))
       (count_if (fun it => negb (String.eqb (snd (snd it)) "direct")) (items routes))
       gateway]
  else [].

(** What the [if added or removed] block sends to the console and to the
    renderer when it runs. *)
Definition console_lines (self : self_t) (graph_notice : string)
           (current : routes_t * option string) (added removed : routes_t)
  : list console_event :=
  (if log_to_console self then
     [OutText (String LF "Routing changes detected!")]
     ++ (if truthy added
         then [OutText ("Added routes: " ++ join ", " (keys added))%string] else [])
     ++ (if truthy removed
         then [OutText ("Removed routes: " ++ join ", " (keys removed))%string] else [])
   else [])
  ++ summary_lines self (fst current) (snd current)
  ++ (if log_to_console self then [OutText graph_notice] else [])
  ++ [TopologyGraphShown (fst current) (snd current)].

(** The world after the [if added or removed] block has run. *)
Definition recorded (self : self_t) (graph_notice : string)
           (current : routes_t * option string) (added removed : routes_t)
           (w : world) : world :=
  mkWorld (source w) (polls w) (clock w) (S (clock_reads w))
          (log w ++ log_lines added removed)
          (csv (after_save added removed w))
          (console w ++ console_lines self graph_notice current added removed).

Section MonitorProperties.
Variable self : self_t.

#[local] Arguments save_to_csv : simpl never.

Lemma print_route_summary_run routes gateway w :
  print_route_summary self routes gateway w
  = (Ok tt, mkWorld (source w) (polls w) (clock w) (clock_reads w) (log w)
                    (csv w) (console w ++ summary_lines self routes gateway)).
Proof.
  destruct w. unfold print_route_summary, summary_lines.
  destruct (log_to_console self); simpl; [reflexivity |].
  unfold ret. now rewrite app_nil_r.
Qed.

Lemma process_changes_run graph_notice previous current added removed w :
  truthy added || truthy removed = true ->
  process_changes self graph_notice previous current added removed w
  = (Ok current, recorded self graph_notice current added removed w).
Proof.
  intros Hch. destruct current as [current_routes current_gateway].
  destruct w as [src p clk cr lg f con].
  unfold process_changes. rewrite Hch.
  unfold bind at 1 2 3 4 5. unfold when at 1.
  unfold recorded, console_lines, log_lines, log_changes.
  destruct (log_to_console self) eqn:Hcon;
    destruct added as [| a0 added]; destruct removed as [| r0 removed];
    try discriminate;
    unfold bind, when, emit, logging_info, logging_emit, ret;
    cbn [truthy fst snd source polls clock clock_reads log csv console];
    rewrite save_to_csv_run, print_route_summary_run;
    unfold after_save, create_topology_graph, emit, summary_lines;
    rewrite ?Hcon;
    cbn [truthy fst snd source polls clock clock_reads log csv console];
    repeat rewrite <- app_assoc; cbn [app]; rewrite ?app_nil_r;
    reflexivity.
Qed.

Lemma process_changes_quiet graph_notice previous current added removed w :
  truthy added || truthy removed = false ->
  process_changes self graph_notice previous current added removed w
  = (Ok previous, w).
Proof.
  intros Hq. destruct current. unfold process_changes. now rewrite Hq.
Qed.

(** A turn of the loop in which [ip route] has run goes on to the
    comparison and to the [if added or removed] block. *)
Lemma monitor_cycle_exited previous w rc out :
  source w (polls w) = Exited rc out ->
  monitor_cycle self previous w
  = match compare_routes self (fst previous)
                         (fst (parse_routes self (splitlines out))) with
    | Ok d => process_changes self "Updating topology graph..." previous
                              (parse_routes self (splitlines out))
                              (fst d) (snd d) (polled w)
    | Raise e => (Raise e, polled w)
    end.
Proof.
  intros Hsrc. unfold monitor_cycle. unfold bind at 1.
  rewrite (get_current_routes_exited self w rc out Hsrc).
  unfold bind, lift.
  destruct (compare_routes self (fst previous)
                           (fst (parse_routes self (splitlines out))));
    reflexivity.
Qed.

Lemma monitor_cycle_cannot_start previous w :
  source w (polls w) = CannotStart ->
  monitor_cycle self previous w = (Raise FileNotFoundError, polled w).
Proof.
  intros Hsrc. unfold monitor_cycle. unfold bind at 1.
  now rewrite (get_current_routes_cannot_start self w Hsrc).
Qed.

(** A turn of the loop that finds a change: the new table and gateway
    become the baseline; the log gets the lines of [log_changes]; the CSV
    file gets, after its old rows and the header when due, one row for each
    added and each removed route with the one timestamp of the turn; the
    new table goes to the renderer. *)
Theorem monitor_cycle_change previous w rc out added removed :
  source w (polls w) = Exited rc out ->
  compare_routes self (fst previous) (fst (parse_routes self (splitlines out)))
  = Ok (added, removed) ->
  truthy added || truthy removed = true ->
  fst (monitor_cycle self previous w) = Ok (parse_routes self (splitlines out)) /\
  log (snd (monitor_cycle self previous w)) = log w ++ log_lines added removed /\
  csv (snd (monitor_cycle self previous w))
  = Some (csv_rows w ++ header_due w
          ++ map (change_row "Added" (clock w (clock_reads w))) (items added)
          ++ map (change_row "Removed" (clock w (clock_reads w))) (items removed)) /\
  In (TopologyGraphShown (fst (parse_routes self (splitlines out)))
                         (snd (parse_routes self (splitlines out))))
     (console (snd (monitor_cycle self previous w))).
Proof.
  intros Hsrc Hcmp Hch.
  rewrite (monitor_cycle_exited previous w rc out Hsrc), Hcmp.
  cbn [fst snd]. rewrite process_changes_run by assumption.
  cbn [fst snd]. unfold recorded, console_lines. cbn [log csv console].
  repeat split; try reflexivity.
  rewrite !in_app_iff. right. right. right. right. now left.
Qed.

(** Whatever happens in a turn of the loop, [ip route] is run once, and
    the log and the CSV file keep what they had: a turn only adds at their
    end. *)
Theorem monitor_cycle_append_only previous w :
  polls (snd (monitor_cycle self previous w)) = S (polls w) /\
  (exists new_records,
      log (snd (monitor_cycle self previous w)) = log w ++ new_records) /\
  (exists new_rows,
      csv_rows (snd (monitor_cycle self previous w)) = csv_rows w ++ new_rows).
Proof.
  destruct (source w (polls w)) as [| rc out] eqn:Hsrc.
  - rewrite (monitor_cycle_cannot_start previous w Hsrc). cbn [snd].
    split; [reflexivity |].
    split; exists []; now rewrite app_nil_r.
  - rewrite (monitor_cycle_exited previous w rc out Hsrc).
    destruct (compare_routes_get self (fst previous)
                (fst (parse_routes self (splitlines out))))
      as [added [removed [Hc _]]].
    rewrite Hc. cbn [fst snd].
    destruct (truthy added || truthy removed) eqn:Hch.
    + rewrite process_changes_run by assumption. cbn [snd].
      split; [reflexivity |].
      split; [now eexists |].
      unfold csv_rows at 1. unfold recorded, after_save. cbn [csv].
      now eexists.
    + rewrite process_changes_quiet by assumption. cbn [snd].
      split; [reflexivity |].
      split; exists []; now rewrite app_nil_r.
Qed.

(** A change is reported once: when the next run of [ip route] prints the
    same text again, the second turn keeps the baseline of the first and
    adds nothing to the log, the CSV file or the console. *)
Theorem monitor_cycle_reports_once previous w rc rc' out :
  source w (polls w) = Exited rc out ->
  source w (S (polls w)) = Exited rc' out ->
  exists baseline w1 w2,
    monitor_cycle self previous w = (Ok baseline, w1) /\
    monitor_cycle self baseline w1 = (Ok baseline, w2) /\
    log w2 = log w1 /\ csv w2 = csv w1 /\ console w2 = console w1.
Proof.
  intros Hsrc Hnext.
  rewrite (monitor_cycle_exited previous w rc out Hsrc).
  destruct (compare_routes_get self (fst previous)
              (fst (parse_routes self (splitlines out))))
    as [added [removed [Hc _]]].
  rewrite Hc. cbn [fst snd].
  destruct (truthy added || truthy removed) eqn:Hch.
  - rewrite process_changes_run by assumption.
    eexists _, _, _. split; [reflexivity |].
    rewrite (monitor_cycle_exited _ _ rc' out) by exact Hnext.
    rewrite compare_routes_same. cbn [fst snd].
    rewrite process_changes_quiet by reflexivity.
    repeat split; reflexivity.
  - rewrite process_changes_quiet by assumption.
    eexists _, _, _. split; [reflexivity |].
    rewrite (monitor_cycle_exited _ _ rc' out) by exact Hnext.
    rewrite Hc. cbn [fst snd].
    rewrite process_changes_quiet by assumption.
    repeat split; reflexivity.
Qed.

(** The first poll of [monitor] only sets the baseline: the table it
    finds is not compared with anything, and neither the log nor the CSV
    file is touched. *)
Theorem monitor_first_poll w rc out :
  source w (polls w) = Exited rc out ->
  fst (monitor self 0 w) = Ok (parse_routes self (splitlines out)) /\
  log (snd (monitor self 0 w)) = log w /\
  csv (snd (monitor self 0 w)) = csv w.
Proof.
  intros Hsrc. unfold monitor, bind.
  rewrite (get_current_routes_exited self w rc out Hsrc).
  rewrite print_route_summary_run.
  repeat split; reflexivity.
Qed.

Lemma count_if_split {A} (p : A -> bool) (l : list A) :
  count_if p l + count_if (fun x => negb (p x)) l = List.length l.
Proof.
  unfold count_if. induction l as [| x l IH]; simpl; auto.
  destruct (p x); simpl; lia.
Qed.

(** With the console on, the three numbers of the summary fit together:
    direct routes and gateway routes add up to the total. *)
Theorem print_route_summary_counts routes gateway w :
  log_to_console self = true ->
  exists direct_routes gateway_routes,
    console (snd (print_route_summary self routes gateway w))
    = console w ++ [OutRouteSummary (List.length routes) direct_routes
                                   gateway_routes gateway] /\
    direct_routes + gateway_routes = List.length routes.
Proof.
  intros Hcon. rewrite print_route_summary_run. unfold summary_lines.
  rewrite Hcon. cbn [snd console]. eexists _, _. split; [reflexivity |].
  apply (count_if_split (fun it : string * route_info =>
                           String.eqb (snd (snd it)) "direct")).
Qed.

End MonitorProperties.

(** What a turn of the loop returns and records does not depend on the
    console setting (nor on any other attribute of the tracker). *)
Theorem monitor_cycle_console_independent self1 self2 previous w :
  fst (monitor_cycle self1 previous w) = fst (monitor_cycle self2 previous w) /\
  log (snd (monitor_cycle self1 previous w))
  = log (snd (monitor_cycle self2 previous w)) /\
  csv (snd (monitor_cycle self1 previous w))
  = csv (snd (monitor_cycle self2 previous w)).
Proof.
  destruct (source w (polls w)) as [| rc out] eqn:Hsrc.
  - rewrite !monitor_cycle_cannot_start by assumption. auto.
  - rewrite !(monitor_cycle_exited _ previous w rc out Hsrc).
    change (parse_routes self2) with (parse_routes self1).
    change (compare_routes self2) with (compare_routes self1).
    destruct (compare_routes_get self1 (fst previous)
                (fst (parse_routes self1 (splitlines out))))
      as [added [removed [Hc _]]].
    rewrite Hc. cbn [fst snd].
    destruct (truthy added || truthy removed) eqn:Hch.
    + rewrite !process_changes_run by assumption. auto.
    + rewrite !process_changes_quiet by assumption. auto.
Qed.

(* ===================================================================== *)
(** ** The graph of [create_topology_graph]                               *)
(* ===================================================================== *)

(** The part of [networkx.DiGraph] that [create_topology_graph] uses: the
    nodes in insertion order, each with its [color] attribute when it has
    one, and the edges, each listed once. *)
Module Topology.

Record digraph := mkGraph {
  nodes : dict (option string);
  edges : list (string * string)
}.

(** [nx.DiGraph()] *)
Definition empty_graph : digraph := mkGraph [] [].

(** [G.add_node(n, color=c)]: a new node, or a new colour for a node that
    is there. *)
Definition add_node (n : string) (color : string) (G : digraph) : digraph :=
  mkGraph (set n (Some color) (nodes G)) (edges G).

(** A node that an edge brings in has no attribute. *)
Definition touch (n : string) (ns : dict (option string)) : dict (option string) :=
  if mem n ns then ns else set n None ns.

Definition has_edge (u v : string) (es : list (string * string)) : bool :=
  existsb (fun e => String.eqb (fst e) u && String.eqb (snd e) v) es.

(** [G.add_edge(u, v)]: both ends become nodes when they are not, and the
    edge is added when it is not there. *)
Definition add_edge (u v : string) (G : digraph) : digraph :=
  mkGraph (touch v (touch u (nodes G)))
          (if has_edge u v (edges G) then edges G else edges G ++ [(u, v)]).

(** Truth value of [gateway]: a string that is not empty. *)
Definition gateway_truthy (gateway : option string) : bool :=
  match gateway with
  | Some g => negb (String.eqb g "")
  | None => false
  end.

(** The value of [gateway] where the code uses it as a node; only read
    when [gateway] is true. *)
Definition gateway_name (gateway : option string) : string :=
  match gateway with
  | Some g => g
  | None => ""
  end.

Definition host_node : string := "this-host".

(** The body of [for destination, (_, _, next_hop) in routes.items()]. *)
Definition add_route (gateway : option string) (G : digraph)
           (item : string * route_info) : digraph :=
  let '(destination, (_, _, next_hop)) := item in
  let G := add_node destination "green" G in
  if String.eqb next_hop "direct" then add_edge host_node destination G
  else if gateway_truthy gateway && String.eqb next_hop (gateway_name gateway)
  then add_edge (gateway_name gateway) destination G
  else
    let G := add_node next_hop "orange" G in
    let G := add_edge (if gateway_truthy gateway then gateway_name gateway
                       else host_node) next_hop G in
    add_edge next_hop destination G.

(** The graph that [create_topology_graph] has built when it comes to the
    layout. *)
Definition topology_graph (routes : routes_t) (gateway : option string)
  : digraph :=
  let G := add_node host_node "lightblue" empty_graph in
  let G := if gateway_truthy gateway
           then add_edge host_node (gateway_name gateway)
                         (add_node (gateway_name gateway) "yellow" G)
           else G in
  fold_left (add_route gateway) (items routes) G.

(** [[G.nodes[node]['color'] for node in G.nodes()]] *)
Fixpoint colors_of (ns : list (string * option string)) : result (list string) :=
  match ns with
  | [] => Ok []
  | (_, Some c) :: ns' =>
      match colors_of ns' with
      | Ok cs => Ok (c :: cs)
      | Raise e => Raise e
      end
  | (_, None) :: _ => Raise (KeyError "color")
  end.

Definition node_colors (G : digraph) : result (list string) :=
  colors_of (items (nodes G)).

(** A walk along the edges. *)
Inductive reachable (es : list (string * string)) : string -> string -> Prop :=
| reach_here u : reachable es u u
| reach_step u v t : reachable es u v -> In (v, t) es -> reachable es u t.

End Topology.

Import Topology.

Section TopologyProperties.

Lemma mem_set {V} (d : dict V) k k' v :
  mem k' (set k v d) = String.eqb k' k || mem k' d.
Proof.
  unfold mem. rewrite get_set.
  destruct (String.eqb k' k); simpl; auto.
Qed.

Lemma touch_present n ns : mem n ns = true -> touch n ns = ns.
Proof. unfold touch. now intros ->. Qed.

Lemma mem_add_node n c G k :
  mem k (nodes (add_node n c G)) = String.eqb k n || mem k (nodes G).
Proof. apply mem_set. Qed.

Lemma has_edge_In u v es : has_edge u v es = true -> In (u, v) es.
Proof.
  unfold has_edge. rewrite existsb_exists. intros [[a b] [Hin He]].
  simpl in He. apply andb_prop in He. destruct He as [Ha Hb].
  apply String.eqb_eq in Ha, Hb. now subst.
Qed.

Lemma add_edge_In u v G : In (u, v) (edges (add_edge u v G)).
Proof.
  unfold add_edge. simpl. destruct (has_edge u v (edges G)) eqn:E.
  - now apply has_edge_In.
  - apply in_or_app. right. now left.
Qed.

Lemma add_edge_keeps u v G e : In e (edges G) -> In e (edges (add_edge u v G)).
Proof.
  unfold add_edge. simpl. destruct (has_edge u v (edges G)); auto.
  intros H. apply in_or_app. now left.
Qed.

(** An edge between two nodes that are there leaves the nodes alone. *)
Lemma add_edge_nodes u v G :
  mem u (nodes G) = true -> mem v (nodes G) = true ->
  nodes (add_edge u v G) = nodes G.
Proof.
  intros Hu Hv. unfold add_edge. simpl.
  now rewrite (touch_present u), (touch_present v).
Qed.

Definition colored (ns : dict (option string)) : Prop :=
  Forall (fun kv : string * option string => snd kv <> None) ns.

Lemma colored_add_node n c G :
  colored (nodes G) -> colored (nodes (add_node n c G)).
Proof. intros H. apply set_Forall; auto. simpl. discriminate. Qed.

Lemma colors_of_colored ns :
  colored ns -> exists cs, colors_of ns = Ok cs /\ List.length cs = List.length ns.
Proof.
  induction 1 as [| [k [c |]] ns Hk Hns [cs [Hcs Hlen]]]; simpl.
  - exists []. auto.
  - rewrite Hcs. exists (c :: cs). simpl. auto.
  - simpl in Hk. congruence.
Qed.

(** What the loop keeps true of the graph: every node has a colour, the
    host is a node, and a gateway that counts is a node with an edge from
    the host. *)
Definition graph_ok (gateway : option string) (G : digraph) : Prop :=
  colored (nodes G) /\
  mem host_node (nodes G) = true /\
  (gateway_truthy gateway = true ->
   mem (gateway_name gateway) (nodes G) = true /\
   In (host_node, gateway_name gateway) (edges G)).

Lemma graph_ok_start gateway :
  graph_ok gateway
    (if gateway_truthy gateway
     then add_edge host_node (gateway_name gateway)
            (add_node (gateway_name gateway) "yellow"
                      (add_node host_node "lightblue" empty_graph))
     else add_node host_node "lightblue" empty_graph).
Proof.
  unfold graph_ok. destruct (gateway_truthy gateway) eqn:Hg.
  - assert (Hh : mem host_node
                     (nodes (add_node (gateway_name gateway) "yellow"
                               (add_node host_node "lightblue" empty_graph)))
                 = true).
    { rewrite !mem_add_node. rewrite String.eqb_refl.
      now rewrite orb_true_r. }
    assert (Hgn : mem (gateway_name gateway)
                      (nodes (add_node (gateway_name gateway) "yellow"
                                (add_node host_node "lightblue" empty_graph)))
                  = true).
    { rewrite mem_add_node. now rewrite String.eqb_refl. }
    rewrite add_edge_nodes by assumption.
    repeat split; auto using add_edge_In.
    apply colored_add_node, colored_add_node. constructor.
  - repeat split; try discriminate.
    apply colored_add_node. constructor.
Qed.

Lemma graph_ok_add_node gateway n c G :
  graph_ok gateway G -> graph_ok gateway (add_node n c G).
Proof.
  intros [Hc [Hh Hg]]. repeat split.
  - now apply colored_add_node.
  - rewrite mem_add_node, Hh. apply orb_true_r.
  - rewrite mem_add_node. destruct (Hg H) as [Hm _]. rewrite Hm.
    apply orb_true_r.
  - now destruct (Hg H).
Qed.

Lemma graph_ok_add_edge gateway u v G :
  mem u (nodes G) = true -> mem v (nodes G) = true ->
  graph_ok gateway G -> graph_ok gateway (add_edge u v G).
Proof.
  intros Hu Hv [Hc [Hh Hg]]. unfold graph_ok.
  rewrite add_edge_nodes by assumption.
  repeat split; auto.
  - now destruct (Hg H).
  - apply add_edge_keeps. now destruct (Hg H).
Qed.

Lemma reachable_more es es' u v :
  (forall e, In e es -> In e es') -> reachable es u v -> reachable es' u v.
Proof.
  intros Hsub. induction 1 as [| u v t _ IH Hin].
  - constructor.
  - apply (reach_step es' u v t); auto.
Qed.

(** One route added: the graph stays well formed, the edges that were
    there stay, and the destination is a node that a walk from the host
    reaches. *)
Lemma add_route_ok gateway G item :
  graph_ok gateway G ->
  graph_ok gateway (add_route gateway G item) /\
  (forall e, In e (edges G) -> In e (edges (add_route gateway G item))) /\
  mem (fst item) (nodes (add_route gateway G item)) = true /\
  reachable (edges (add_route gateway G item)) host_node (fst item).
Proof.
  intros Hok. destruct item as [destination [[ad me] next_hop]].
  unfold add_route. cbn [fst].
  set (G1 := add_node destination "green" G).
  assert (Hok1 : graph_ok gateway G1) by now apply graph_ok_add_node.
  assert (Hd1 : mem destination (nodes G1) = true)
    by (unfold G1; rewrite mem_add_node, String.eqb_refl; reflexivity).
  pose proof Hok1 as [Hc1 [Hh1 Hg1]].
  destruct (String.eqb next_hop "direct").
  - split; [apply graph_ok_add_edge; auto |].
    split; [intros e He; now apply add_edge_keeps |].
    split; [now rewrite add_edge_nodes |].
    apply (reach_step _ _ host_node); [constructor | apply add_edge_In].
  - destruct (gateway_truthy gateway) eqn:Hgt; cbn [andb].
    + destruct (Hg1 eq_refl) as [Hgm Hge].
      destruct (String.eqb next_hop (gateway_name gateway)).
      * split; [apply graph_ok_add_edge; auto |].
        split; [intros e He; now apply add_edge_keeps |].
        split; [now rewrite add_edge_nodes |].
        apply (reach_step _ _ (gateway_name gateway)); [| apply add_edge_In].
        apply (reach_step _ _ host_node); [constructor |].
        now apply add_edge_keeps.
      * set (G2 := add_node next_hop "orange" G1).
        assert (Hok2 : graph_ok gateway G2)
          by (now apply graph_ok_add_node).
        assert (Hn2 : mem next_hop (nodes G2) = true)
          by (unfold G2; rewrite mem_add_node, String.eqb_refl; reflexivity).
        assert (Hd2 : mem destination (nodes G2) = true)
          by (unfold G2; rewrite mem_add_node, Hd1; apply orb_true_r).
        assert (Hg2 : mem (gateway_name gateway) (nodes G2) = true)
          by (unfold G2; rewrite mem_add_node, Hgm; apply orb_true_r).
        set (G3 := add_edge (gateway_name gateway) next_hop G2).
        assert (Hn3 : nodes G3 = nodes G2) by now apply add_edge_nodes.
        assert (Hok3 : graph_ok gateway G3) by now apply graph_ok_add_edge.
        split; [apply graph_ok_add_edge; rewrite ?Hn3; auto |].
        split; [intros e He; unfold G3; now do 2 apply add_edge_keeps |].
        split; [rewrite add_edge_nodes; rewrite ?Hn3; auto |].
        apply (reach_step _ _ next_hop); [| apply add_edge_In].
        apply (reach_step _ _ (gateway_name gateway)).
        -- apply (reach_step _ _ host_node); [constructor |].
           unfold G3. now do 2 apply add_edge_keeps.
        -- apply add_edge_keeps. apply add_edge_In.
    + set (G2 := add_node next_hop "orange" G1).
      assert (Hok2 : graph_ok gateway G2)
        by (now apply graph_ok_add_node).
      assert (Hn2 : mem next_hop (nodes G2) = true)
        by (unfold G2; rewrite mem_add_node, String.eqb_refl; reflexivity).
      assert (Hd2 : mem destination (nodes G2) = true)
        by (unfold G2; rewrite mem_add_node, Hd1; apply orb_true_r).
      assert (Hh2 : mem host_node (nodes G2) = true)
        by (unfold G2; rewrite mem_add_node, Hh1; apply orb_true_r).
      set (G3 := add_edge host_node next_hop G2).
      assert (Hn3 : nodes G3 = nodes G2) by now apply add_edge_nodes.
      assert (Hok3 : graph_ok gateway G3) by now apply graph_ok_add_edge.
      split; [apply graph_ok_add_edge; rewrite ?Hn3; auto |].
      split; [intros e He; unfold G3; now do 2 apply add_edge_keeps |].
      split; [rewrite add_edge_nodes; rewrite ?Hn3; auto |].
      apply (reach_step _ _ next_hop); [| apply add_edge_In].
      apply (reach_step _ _ host_node); [constructor |].
      apply add_edge_keeps. apply add_edge_In.
Qed.

Lemma mem_touch n ns k : mem k ns = true -> mem k (touch n ns) = true.
Proof.
  intros H. unfold touch. destruct (mem n ns); auto.
  rewrite mem_set, H. apply orb_true_r.
Qed.

Lemma add_node_mono n c G k :
  mem k (nodes G) = true -> mem k (nodes (add_node n c G)) = true.
Proof. intros H. rewrite mem_add_node, H. apply orb_true_r. Qed.

Lemma add_edge_mono u v G k :
  mem k (nodes G) = true -> mem k (nodes (add_edge u v G)) = true.
Proof. intros H. unfold add_edge. simpl. now do 2 apply mem_touch. Qed.

Lemma add_route_mono gateway G item k :
  mem k (nodes G) = true -> mem k (nodes (add_route gateway G item)) = true.
Proof.
  intros H. destruct item as [destination [[ad me] next_hop]].
  unfold add_route.
  destruct (String.eqb next_hop "direct");
    [| destruct (gateway_truthy gateway
                 && String.eqb next_hop (gateway_name gateway))];
    auto using add_node_mono, add_edge_mono.
Qed.

Lemma fold_add_route_ok gateway l G :
  graph_ok gateway G ->
  graph_ok gateway (fold_left (add_route gateway) l G) /\
  (forall e, In e (edges G) ->
             In e (edges (fold_left (add_route gateway) l G))) /\
  (forall k, mem k (nodes G) = true ->
             mem k (nodes (fold_left (add_route gateway) l G)) = true) /\
  (forall item, In item l ->
     mem (fst item) (nodes (fold_left (add_route gateway) l G)) = true /\
     reachable (edges (fold_left (add_route gateway) l G)) host_node (fst item)).
Proof.
  revert G. induction l as [| it l IH]; intros G Hok; simpl.
  - split; [assumption |]. split; [auto |]. split; [auto |].
    intros item [].
  - destruct (add_route_ok gateway G it Hok) as [Hok1 [Hedges [Hnode Hreach]]].
    destruct (IH _ Hok1) as [Hok' [Hedges' [Hnodes' Hitems']]].
    split; [assumption |].
    split; [auto |].
    split; [intros k Hk; apply Hnodes'; now apply add_route_mono |].
    intros item [<- | Hin]; [| now apply Hitems'].
    split; [now apply Hnodes' |].
    now apply (reachable_more (edges (add_route gateway G it))).
Qed.

(** Every node of the graph has a colour when the colours are collected
    for drawing: that list is built without a [KeyError] and has one
    colour for each node. *)
Theorem topology_graph_colors routes gateway :
  exists cs,
    node_colors (topology_graph routes gateway) = Ok cs /\
    List.length cs = List.length (nodes (topology_graph routes gateway)).
Proof.
  unfold node_colors, items. apply colors_of_colored.
  unfold topology_graph.
  now destruct (fold_add_route_ok gateway (items routes) _
                  (graph_ok_start gateway)) as [[Hc _] _].
Qed.

(** Every destination of the table is a node of the graph, and a walk
    along the edges leads from the host to it. *)
Theorem topology_graph_reaches routes gateway d :
  mem d routes = true ->
  mem d (nodes (topology_graph routes gateway)) = true /\
  reachable (edges (topology_graph routes gateway)) host_node d.
Proof.
  intros Hd. apply mem_true_get in Hd. destruct Hd as [v Hv].
  apply get_In in Hv. unfold topology_graph.
  destruct (fold_add_route_ok gateway (items routes) _
              (graph_ok_start gateway)) as [_ [_ [_ Hitems]]].
  apply (Hitems (d, v) Hv).
Qed.

End TopologyProperties.

(* ===================================================================== *)
(** ** [__init__], [run_test], [run_tracker] and [main]                   *)
(* ===================================================================== *)

From Stdlib Require Import ZArith.

Module Cli.

(** [os.path.join(a, b)] of [posixpath] for two components. *)
Definition os_path_join (a b : string) : string :=
  if startswith b "/" then b
  else if String.eqb a "" then b
  else if startswith (rev_string a) "/" then (a ++ b)%string
  else (a ++ "/" ++ b)%string.

(** [f"{file_prefix}_" if file_prefix else ""] *)
Definition prefix_of (file_prefix : option string) : string :=
  match file_prefix with
  | Some p => if String.eqb p "" then "" else (p ++ "_")%string
  | None => ""
  end.

(** What the file system answers to the two calls of [__init__] that touch
    it: for a path, the exception that the call raises there (no
    permission, a file in the way, a missing directory, ...), or [None]
    when the call goes through. *)
Record os_env := mkEnv {
  makedirs_error : string -> option exn;
  basicConfig_error : string -> option exn
}.

(** The outcome of [os.makedirs(path, exist_ok=True)]: the empty path
    always raises [FileNotFoundError]; any other path is the file system's
    to answer. *)
Definition makedirs_outcome (env : os_env) (path : string) : option exn :=
  if String.eqb path "" then Some FileNotFoundError
  else makedirs_error env path.

(** [os.makedirs(path, exist_ok=True)] *)
Definition os_makedirs (env : os_env) (path : string) : M unit :=
  match makedirs_outcome env path with
  | Some e => raise e
  | None => ret tt
  end.

(** [logging.basicConfig(filename=filename, ...)]: the log file is opened
    for appending at once, which the file system may refuse. *)
Definition logging_basicConfig (env : os_env) (filename : string) : M unit :=
  match basicConfig_error env filename with
  | Some e => raise e
  | None => ret tt
  end.

(** [RouteTracker.__init__].  The directory is made first; then the clock
    is read once, for the name of the two files; then the log file is
    opened. *)
Definition init (env : os_env) (output_dir : string) (log_to_console : bool)
           (file_prefix : option string) : M self_t :=
  os_makedirs env output_dir ;;
  timestamp <- datetime_now ;;
  let prefix := prefix_of file_prefix in
  let log_file :=
    os_path_join output_dir
                 (prefix ++ "routing_changes_" ++ timestamp ++ ".log")%string in
  let csv_file :=
    os_path_join output_dir
                 (prefix ++ "routing_changes_" ++ timestamp ++ ".csv")%string in
  logging_basicConfig env log_file ;;
  when log_to_console
       (emit (OutText ("Log file: " ++ log_file)%string) ;;
        emit (OutText ("CSV file: " ++ csv_file)%string)) ;;
  ret (mkSelf output_dir log_to_console log_file csv_file).

(** [run_test(output_dir, log_to_console, file_prefix)], whole. *)
Definition run_test_fn (env : os_env) (output_dir : string)
           (log_to_console : bool) (file_prefix : option string) : M bool :=
  tracker <- init env output_dir log_to_console file_prefix ;;
  run_test tracker.

(** [run_tracker(interval, output_dir, log_to_console, file_prefix)], with
    the interrupt in the sleep after [turns] turns of the loop. *)
Definition run_tracker (env : os_env) (turns : nat) (output_dir : string)
           (log_to_console : bool) (file_prefix : option string) : M unit :=
  tracker <- init env output_dir log_to_console file_prefix ;;
  monitor tracker turns ;;
  ret tt.

(** The namespace that [parser.parse_args()] returns. *)
Record args_t := mkArgs {
  interval : Z;
  arg_output_dir : string;
  no_console : bool;
  prefix : option string;
  test : bool
}.

(** [main], from the parsed arguments on. *)
Definition main (env : os_env) (turns : nat) (args : args_t) : M unit :=
  if (interval args <? 1)%Z then
    emit (OutText "Error: Interval must be at least 1 second")
  else if test args then
    run_test_fn env (arg_output_dir args) (negb (no_console args)) (prefix args) ;;
    ret tt
  else
    run_tracker env turns (arg_output_dir args) (negb (no_console args))
                (prefix args).

End Cli.

Import Cli.

(* ===================================================================== *)
(** ** Properties of [__init__], [run_test] and [main]                    *)
(* ===================================================================== *)

(** The one row that [run_test] records. *)
Definition run_test_row (timestamp : string) : csv_row :=
  [FStr "Added"; FStr "192.168.2.0/24"; FNone; FNone; FStr "192.168.1.1";
   FStr timestamp].

(** The path of the log file of a tracker made at time [timestamp]. *)
Definition log_path (output_dir : string) (file_prefix : option string)
           (timestamp : string) : string :=
  os_path_join output_dir
    (prefix_of file_prefix ++ "routing_changes_" ++ timestamp ++ ".log")%string.

Section CliProperties.
Local Open Scope string_scope.

Lemma startswith_ext x e :
  nonempty x = true -> startswith (x ++ e) "/" = startswith x "/".
Proof.
  destruct x as [| c x]; [discriminate |]. intros _.
  unfold startswith.
  change (String.prefix "/" (String c x ++ e))
    with (if ascii_dec "/" c then String.prefix "" (x ++ e) else false).
  change (String.prefix "/" (String c x))
    with (if ascii_dec "/" c then String.prefix "" x else false).
  destruct (ascii_dec "/" c); [| reflexivity].
  destruct (x ++ e); destruct x; reflexivity.
Qed.

Lemma os_path_join_ext a x e :
  nonempty x = true -> os_path_join a (x ++ e) = os_path_join a x ++ e.
Proof.
  intros Hx. unfold os_path_join. rewrite startswith_ext by assumption.
  destruct (startswith x "/"); auto.
  destruct (String.eqb a ""); auto.
  destruct (startswith (rev_string a) "/");
    now rewrite ?append_assoc.
Qed.

Lemma file_stem_nonempty p ts :
  nonempty (prefix_of p ++ "routing_changes_" ++ ts) = true.
Proof. destruct (prefix_of p); reflexivity. Qed.

Lemma init_run env output_dir log_to_console file_prefix w :
  makedirs_outcome env output_dir = None ->
  basicConfig_error env
    (log_path output_dir file_prefix (clock w (clock_reads w))) = None ->
  exists tracker out,
    init env output_dir log_to_console file_prefix w
    = (Ok tracker,
       mkWorld (source w) (polls w) (clock w) (S (clock_reads w)) (log w)
               (csv w) (console w ++ out)) /\
    RouteTracker.log_to_console tracker = log_to_console /\
    RouteTracker.output_dir tracker = output_dir /\
    log_file tracker
    = os_path_join output_dir
        (prefix_of file_prefix ++ "routing_changes_"
         ++ clock w (clock_reads w) ++ ".log") /\
    csv_file tracker
    = os_path_join output_dir
        (prefix_of file_prefix ++ "routing_changes_"
         ++ clock w (clock_reads w) ++ ".csv").
Proof.
  intros Hdir Hlog. destruct w as [src p clk cr lg f con].
  unfold log_path in Hlog. cbn [clock clock_reads] in Hlog.
  unfold init, bind, os_makedirs, logging_basicConfig, datetime_now.
  rewrite Hdir. unfold ret at 1.
  cbn [fst snd source polls clock clock_reads log csv console].
  rewrite Hlog. unfold when, emit, ret.
  destruct log_to_console; cbn [fst snd source polls clock clock_reads log csv console].
  - eexists _, _. split.
    + rewrite <- app_assoc. reflexivity.
    + repeat split; reflexivity.
  - eexists _, []. split.
    + rewrite app_nil_r. reflexivity.
    + repeat split; reflexivity.
Qed.

(** When the directory cannot be made, [__init__] ends with the exception
    of [os.makedirs] before anything else is done. *)
Lemma init_makedirs_fails env output_dir log_to_console file_prefix w e :
  makedirs_outcome env output_dir = Some e ->
  init env output_dir log_to_console file_prefix w = (Raise e, w).
Proof.
  intros Hdir. unfold init, bind, os_makedirs. now rewrite Hdir.
Qed.

(** When [os.makedirs] and [logging.basicConfig] go through, the tracker
    is made, its two files have the same name up to the extension, [.log]
    and [.csv], the clock has been read once and nothing has been written
    to the log or to the CSV file. *)
Theorem init_file_names env output_dir log_to_console file_prefix w :
  makedirs_outcome env output_dir = None ->
  basicConfig_error env
    (log_path output_dir file_prefix (clock w (clock_reads w))) = None ->
  exists tracker stem,
    fst (init env output_dir log_to_console file_prefix w) = Ok tracker /\
    log_file tracker = stem ++ ".log" /\
    csv_file tracker = stem ++ ".csv" /\
    clock_reads (snd (init env output_dir log_to_console file_prefix w))
    = S (clock_reads w) /\
    log (snd (init env output_dir log_to_console file_prefix w)) = log w /\
    csv (snd (init env output_dir log_to_console file_prefix w)) = csv w.
Proof.
  intros Hdir Hopen.
  destruct (init_run env output_dir log_to_console file_prefix w Hdir Hopen)
    as [tracker [out [Hrun [_ [_ [Hlog Hcsv]]]]]].
  exists tracker,
    (os_path_join output_dir
       (prefix_of file_prefix ++ "routing_changes_" ++ clock w (clock_reads w))).
  rewrite Hrun. cbn [fst snd clock_reads log csv].
  rewrite Hlog, Hcsv.
  rewrite <- !os_path_join_ext by apply file_stem_nonempty.
  rewrite !append_assoc. repeat split; reflexivity.
Qed.

Lemma run_test_tables self :
  compare_routes self (fst (parse_routes self before_routes))
                      (fst (parse_routes self after_routes))
  = Ok ([("192.168.2.0/24", (None, None, "192.168.1.1"))], []).
Proof. vm_compute. reflexivity. Qed.

(** [run_test] in any world: it returns [True], does not run [ip route],
    reads the clock once, logs the one added route and appends one row for
    it to the CSV file. *)
Lemma run_test_run self w :
  exists w',
    run_test self w = (Ok true, w') /\
    polls w' = polls w /\
    clock_reads w' = S (clock_reads w) /\
    log w' = (log w ++ [INFO (AddedRoutes ["192.168.2.0/24"]
                                          [(None, None, "192.168.1.1")])])%list /\
    csv w' = Some (csv_rows w ++ header_due w
                   ++ [run_test_row (clock w (clock_reads w))])%list.
Proof.
  destruct w as [src p clk cr lg f con].
  unfold run_test, bind, lift. rewrite run_test_tables.
  unfold when at 1. unfold emit at 1. unfold ret at 1.
  destruct (log_to_console self) eqn:Hcon;
    rewrite print_route_summary_run;
    cbn [fst snd];
    rewrite process_changes_run by reflexivity;
    unfold when, emit, ret; rewrite ?Hcon;
    (eexists; split; [reflexivity |]);
    repeat split; reflexivity.
Qed.

(** An interval below one second: [main] prints the error and returns; no
    tracker is made, [ip route] is not run, the clock is not read and
    nothing is logged or written. *)
Theorem main_rejects_interval env turns args w :
  (interval args < 1)%Z ->
  main env turns args w
  = (Ok tt,
     mkWorld (source w) (polls w) (clock w) (clock_reads w) (log w) (csv w)
             (console w ++ [OutText "Error: Interval must be at least 1 second"])).
Proof.
  intros Hi. unfold main. apply Z.ltb_lt in Hi. now rewrite Hi.
Qed.

(** Test mode with a valid interval, when [os.makedirs] and
    [logging.basicConfig] go through: [main] ends normally without running
    [ip route]; the clock is read twice, for the file names and for the
    batch; the log gets the one added route and the CSV file one row for
    it, after the header when due. *)
Theorem main_test_mode env turns args w :
  (1 <= interval args)%Z -> test args = true ->
  makedirs_outcome env (arg_output_dir args) = None ->
  basicConfig_error env
    (log_path (arg_output_dir args) (prefix args) (clock w (clock_reads w)))
  = None ->
  fst (main env turns args w) = Ok tt /\
  polls (snd (main env turns args w)) = polls w /\
  clock_reads (snd (main env turns args w)) = S (S (clock_reads w)) /\
  log (snd (main env turns args w))
  = (log w ++ [INFO (AddedRoutes ["192.168.2.0/24"]
                                 [(None, None, "192.168.1.1")])])%list /\
  csv (snd (main env turns args w))
  = Some (csv_rows w ++ header_due w
          ++ [run_test_row (clock w (S (clock_reads w)))])%list.
Proof.
  intros Hi Ht Hdir Hopen. unfold main.
  assert (Hlt : (interval args <? 1)%Z = false) by (apply Z.ltb_ge; lia).
  rewrite Hlt, Ht. unfold run_test_fn, bind.
  destruct (init_run env (arg_output_dir args) (negb (no_console args))
                     (prefix args) w Hdir Hopen)
    as [tracker [out [Hrun _]]].
  rewrite Hrun.
  set (w1 := mkWorld (source w) (polls w) (clock w) (S (clock_reads w))
                     (log w) (csv w) (console w ++ out)).
  destruct (run_test_run tracker w1) as [w2 [Hrun2 [Hp [Hk [Hl Hc]]]]].
  rewrite Hrun2. unfold ret. cbn [fst snd].
  repeat split; assumption.
Qed.

(** With a valid interval, in test mode or not: when the output directory
    cannot be made (as for the empty path), [main] ends with the exception
    of [os.makedirs]; [ip route] is not run, the clock is not read and
    nothing is logged, written or printed. *)
Theorem main_makedirs_fails env turns args w e :
  (1 <= interval args)%Z ->
  makedirs_outcome env (arg_output_dir args) = Some e ->
  main env turns args w = (Raise e, w).
Proof.
  intros Hi Hdir. unfold main.
  assert (Hlt : (interval args <? 1)%Z = false) by (apply Z.ltb_ge; lia).
  rewrite Hlt.
  destruct (test args); unfold run_test_fn, run_tracker, bind;
    now rewrite (init_makedirs_fails env _ _ _ w e Hdir).
Qed.

End CliProperties.

(* ===================================================================== *)
(** ** Instances of the further properties                                *)
(* ===================================================================== *)

Definition loud_tracker : self_t :=
  mkSelf "." true "./routing_changes.log" "./routing_changes.csv".

Definition steady_text : string :=
  ("10.0.0.0/8 via 192.168.1.1 dev eth0" ++ String LF "")%string.

Definition two_routes : routes_t :=
  [("10.0.0.0/8", (None, None, "192.168.1.1"));
   ("192.168.2.0/24", (None, None, "192.168.1.1"))].

Lemma parse_routes_via_line_witness :
  (is_token "10.0.0.0/8" = true /\ is_gap " " = true /\
   is_token "192.168.1.2" = true /\ token_end " dev eth0" = true /\
   startswith "10.0.0.0/8" "default" = false) /\
  parse_routes quiet_tracker
    (["default via 192.168.1.1 dev eth0"]
     ++ [("10.0.0.0/8" ++ " " ++ "via" ++ " " ++ "192.168.1.2" ++ " dev eth0")%string])
  = (set "10.0.0.0/8" (None, None, "192.168.1.2")
         (fst (parse_routes quiet_tracker ["default via 192.168.1.1 dev eth0"])),
     snd (parse_routes quiet_tracker ["default via 192.168.1.1 dev eth0"])).
Proof.
  split; [repeat split; reflexivity |].
  apply (parse_routes_via_line quiet_tracker
           ["default via 192.168.1.1 dev eth0"]
           "10.0.0.0/8" " " " " "192.168.1.2" " dev eth0"); reflexivity.
Defined.

Lemma parse_routes_default_via_line_witness :
  (is_token "192.168.1.1" = true /\ token_end " dev eth0" = true) /\
  parse_routes quiet_tracker
    ([] ++ [("default via " ++ "192.168.1.1" ++ " dev eth0")%string])
  = (fst (parse_routes quiet_tracker []), Some "192.168.1.1").
Proof.
  split; [split; reflexivity |].
  apply (parse_routes_default_via_line quiet_tracker [] "192.168.1.1" " dev eth0");
    reflexivity.
Defined.



Lemma parse_routes_blank_line_witness :
  all_space "   " = true /\
  parse_routes quiet_tracker
    (["default via 192.168.1.1"] ++ "   " :: ["10.0.0.0/8 via 192.168.1.1"])
  = parse_routes quiet_tracker
      (["default via 192.168.1.1"] ++ ["10.0.0.0/8 via 192.168.1.1"]).
Proof.
  split; [reflexivity |].
  apply (parse_routes_blank_line quiet_tracker ["default via 192.168.1.1"]
           "   " ["10.0.0.0/8 via 192.168.1.1"]); reflexivity.
Defined.

Lemma parse_routes_metrics_none_witness :
  get (fst (parse_routes quiet_tracker before_routes)) "10.0.0.0/8"
  = Some (None, None, "192.168.1.1") /\
  fst ((None, None, "192.168.1.1") : route_info) = (None, None).
Proof.
  split; [reflexivity |].
  apply (parse_routes_metrics_none quiet_tracker before_routes "10.0.0.0/8"
           (None, None, "192.168.1.1")); reflexivity.
Defined.

Lemma parse_routes_gateway_none_witness :
  forallb (fun line => negb (startswith line "default"))
          ["10.0.0.0/8 via 192.168.1.1"; "192.168.1.0/24 dev eth0"] = true /\
  snd (parse_routes quiet_tracker
         ["10.0.0.0/8 via 192.168.1.1"; "192.168.1.0/24 dev eth0"]) = None.
Proof.
  split; [reflexivity |].
  apply (parse_routes_gateway_none quiet_tracker
           ["10.0.0.0/8 via 192.168.1.1"; "192.168.1.0/24 dev eth0"]);
    reflexivity.
Defined.

Lemma route_10_via_1_nodup : NoDup (keys route_10_via_1).
Proof. repeat constructor. intros []. Defined.

Lemma two_routes_nodup : NoDup (keys two_routes).
Proof.
  repeat constructor; simpl; intuition discriminate.
Defined.

Lemma compare_routes_order_witness :
  (NoDup (keys route_10_via_1) /\ NoDup (keys two_routes)) /\
  compare_routes quiet_tracker route_10_via_1 two_routes
  = Ok (lacking route_10_via_1 two_routes, lacking two_routes route_10_via_1).
Proof.
  split; [split; [exact route_10_via_1_nodup | exact two_routes_nodup] |].
  apply (compare_routes_order quiet_tracker route_10_via_1 two_routes
           route_10_via_1_nodup two_routes_nodup).
Defined.

Lemma compare_routes_empty_witness :
  NoDup (keys two_routes) /\
  compare_routes quiet_tracker two_routes [] = Ok ([], two_routes) /\
  compare_routes quiet_tracker [] two_routes = Ok (two_routes, []).
Proof.
  split; [exact two_routes_nodup |].
  apply (compare_routes_empty quiet_tracker two_routes two_routes_nodup).
Defined.

Lemma monitor_cycle_change_witness :
  (source steady_world (polls steady_world) = Exited 0 steady_text /\
   compare_routes quiet_tracker (fst (([], None) : routes_t * option string))
     (fst (parse_routes quiet_tracker (splitlines steady_text)))
   = Ok (route_10_via_1, []) /\
   truthy route_10_via_1 || truthy ([] : routes_t) = true) /\
  fst (monitor_cycle quiet_tracker ([], None) steady_world)
  = Ok (parse_routes quiet_tracker (splitlines steady_text)) /\
  log (snd (monitor_cycle quiet_tracker ([], None) steady_world))
  = log steady_world ++ log_lines route_10_via_1 [] /\
  csv (snd (monitor_cycle quiet_tracker ([], None) steady_world))
  = Some (csv_rows steady_world ++ header_due steady_world
          ++ map (change_row "Added"
                             (clock steady_world (clock_reads steady_world)))
                 (items route_10_via_1)
          ++ map (change_row "Removed"
                             (clock steady_world (clock_reads steady_world)))
                 (items ([] : routes_t))) /\
  In (TopologyGraphShown
        (fst (parse_routes quiet_tracker (splitlines steady_text)))
        (snd (parse_routes quiet_tracker (splitlines steady_text))))
     (console (snd (monitor_cycle quiet_tracker ([], None) steady_world))).
Proof.
  split; [repeat split; reflexivity |].
  apply (monitor_cycle_change quiet_tracker ([], None) steady_world 0
           steady_text route_10_via_1 []); reflexivity.
Defined.

Lemma monitor_cycle_reports_once_witness :
  (source steady_world (polls steady_world) = Exited 0 steady_text /\
   source steady_world (S (polls steady_world)) = Exited 0 steady_text) /\
  exists baseline w1 w2,
    monitor_cycle quiet_tracker ([], None) steady_world = (Ok baseline, w1) /\
    monitor_cycle quiet_tracker baseline w1 = (Ok baseline, w2) /\
    log w2 = log w1 /\ csv w2 = csv w1 /\ console w2 = console w1.
Proof.
  split; [split; reflexivity |].
  apply (monitor_cycle_reports_once quiet_tracker ([], None) steady_world
           0 0 steady_text); reflexivity.
Defined.

Lemma monitor_first_poll_witness :
  source steady_world (polls steady_world) = Exited 0 steady_text /\
  fst (monitor quiet_tracker 0 steady_world)
  = Ok (parse_routes quiet_tracker (splitlines steady_text)) /\
  log (snd (monitor quiet_tracker 0 steady_world)) = log steady_world /\
  csv (snd (monitor quiet_tracker 0 steady_world)) = csv steady_world.
Proof.
  split; [reflexivity |].
  apply (monitor_first_poll quiet_tracker steady_world 0 steady_text);
    reflexivity.
Defined.

Lemma print_route_summary_counts_witness :
  log_to_console loud_tracker = true /\
  exists direct_routes gateway_routes,
    console (snd (print_route_summary loud_tracker two_routes None steady_world))
    = console steady_world
      ++ [OutRouteSummary (List.length two_routes) direct_routes
                          gateway_routes None] /\
    direct_routes + gateway_routes = List.length two_routes.
Proof.
  split; [reflexivity |].
  apply (print_route_summary_counts loud_tracker two_routes None steady_world);
    reflexivity.
Defined.


Lemma topology_graph_reaches_witness :
  mem "10.0.0.0/8" route_10_via_2 = true /\
  mem "10.0.0.0/8" (nodes (topology_graph route_10_via_2 (Some "192.168.1.1")))
  = true /\
  reachable (edges (topology_graph route_10_via_2 (Some "192.168.1.1")))
            host_node "10.0.0.0/8".
Proof.
  split; [reflexivity |].
  apply (topology_graph_reaches route_10_via_2 (Some "192.168.1.1") "10.0.0.0/8");
    reflexivity.
Defined.

Definition args_zero_interval : args_t := mkArgs 0 "." false None false.
Definition args_test_mode : args_t := mkArgs 10 "." true None true.
Definition args_no_directory : args_t := mkArgs 10 "" true None false.

(** A file system that lets every directory be made and every log file be
    opened. *)
Definition willing_env : os_env := mkEnv (fun _ => None) (fun _ => None).

Lemma init_file_names_witness :
  (makedirs_outcome willing_env "out" = None /\
   basicConfig_error willing_env
     (log_path "out" (Some "lab")
               (clock steady_world (clock_reads steady_world))) = None) /\
  exists tracker stem,
    fst (init willing_env "out" true (Some "lab") steady_world) = Ok tracker /\
    log_file tracker = (stem ++ ".log")%string /\
    csv_file tracker = (stem ++ ".csv")%string /\
    clock_reads (snd (init willing_env "out" true (Some "lab") steady_world))
    = S (clock_reads steady_world) /\
    log (snd (init willing_env "out" true (Some "lab") steady_world))
    = log steady_world /\
    csv (snd (init willing_env "out" true (Some "lab") steady_world))
    = csv steady_world.
Proof.
  split; [split; reflexivity |].
  apply (init_file_names willing_env "out" true (Some "lab") steady_world);
    reflexivity.
Defined.

Lemma main_rejects_interval_witness :
  (interval args_zero_interval < 1)%Z /\
  main willing_env 3 args_zero_interval steady_world
  = (Ok tt,
     mkWorld (source steady_world) (polls steady_world) (clock steady_world)
             (clock_reads steady_world) (log steady_world) (csv steady_world)
             (console steady_world
              ++ [OutText "Error: Interval must be at least 1 second"])).
Proof.
  split; [reflexivity |].
  apply (main_rejects_interval willing_env 3 args_zero_interval steady_world);
    reflexivity.
Defined.

Lemma main_test_mode_witness :
  ((1 <= interval args_test_mode)%Z /\ test args_test_mode = true /\
   makedirs_outcome willing_env (arg_output_dir args_test_mode) = None /\
   basicConfig_error willing_env
     (log_path (arg_output_dir args_test_mode) (prefix args_test_mode)
               (clock steady_world (clock_reads steady_world))) = None) /\
  fst (main willing_env 3 args_test_mode steady_world) = Ok tt /\
  polls (snd (main willing_env 3 args_test_mode steady_world))
  = polls steady_world /\
  clock_reads (snd (main willing_env 3 args_test_mode steady_world))
  = S (S (clock_reads steady_world)) /\
  log (snd (main willing_env 3 args_test_mode steady_world))
  = log steady_world
    ++ [INFO (AddedRoutes ["192.168.2.0/24"] [(None, None, "192.168.1.1")])] /\
  csv (snd (main willing_env 3 args_test_mode steady_world))
  = Some (csv_rows steady_world ++ header_due steady_world
          ++ [run_test_row (clock steady_world (S (clock_reads steady_world)))]).
Proof.
  split; [split; [simpl; lia | repeat split; reflexivity] |].
  apply (main_test_mode willing_env 3 args_test_mode steady_world);
    [simpl; lia | reflexivity | reflexivity | reflexivity].
Defined.

(** The empty output directory, which no file system lets be made. *)
Lemma main_makedirs_fails_witness :
  ((1 <= interval args_no_directory)%Z /\
   makedirs_outcome willing_env (arg_output_dir args_no_directory)
   = Some FileNotFoundError) /\
  main willing_env 3 args_no_directory steady_world
  = (Raise FileNotFoundError, steady_world).
Proof.
  split; [split; [simpl; lia | reflexivity] |].
  apply (main_makedirs_fails willing_env 3 args_no_directory steady_world
                             FileNotFoundError); [simpl; lia | reflexivity].
Defined.
